(** * Text classification with Transformer: a verification model

    Shallow embedding of the notebook
    [examples/nlp/ipynb/text_classification_with_transformer.ipynb].

    The notebook is glue code over Keras.  Its own functions
    ([TransformerBlock], [TokenAndPositionEmbedding], the dataset cell, the
    model cell, the training cell) are transcribed line by line.  The Keras
    functions they call are not part of the repository; each one is modelled
    from its documented behaviour and is marked "Keras contract" below. *)

From Stdlib Require Import String.
From Stdlib Require Import List ZArith Lia Bool Arith.
From Stdlib Require Import Permutation.
From Stdlib Require Import Reals Lra.
Import ListNotations.

Set Implicit Arguments.

(** ** A small error monad

    [None] stands for "the framework raised an exception": the call has
    no defined result (for a tensor of reals also: the result would not be
    a real number). *)

Definition bind {A B : Type} (m : option A) (k : A -> option B) : option B :=
  match m with
  | Some a => k a
  | None => None
  end.

Notation "x <- m ;; k" := (bind m (fun x => k))
  (at level 61, m at next level, right associativity).

Fixpoint mapM {A B : Type} (f : A -> option B) (l : list A) : option (list B) :=
  match l with
  | [] => Some []
  | a :: l' =>
      b <- f a ;;
      bs <- mapM f l' ;;
      Some (b :: bs)
  end.

(** ** Dataset preparation (notebook cell 4) *)

Module Dataset.

(** The contents of [imdb.npz]: reviews as lists of word ranks, and their
    labels.  The archive is data, not code; every theorem below quantifies
    over it. *)
Record Archive := {
  raw_x_train : list (list Z);
  raw_labels_train : list Z;
  raw_x_test : list (list Z);
  raw_labels_test : list Z
}.

(** Keras contract, [keras.datasets.imdb.load_data(num_words=...)] with the
    defaults [skip_top=0, start_char=1, oov_char=2, index_from=3]:
<<
    x = [[start_char] + [w + index_from for w in x] for x in x]
    xs = [[w if skip_top <= w < num_words else oov_char for w in x] for x in xs]
>>
    The seeded shuffle of the samples only permutes the reviews (together
    with their labels); the archive stands for the samples in that order,
    and nothing below depends on the order of the samples in the file. *)
Definition encode (start_char index_from : Z) (x : list Z) : list Z :=
  start_char :: map (fun w => w + index_from)%Z x.

Definition clip (skip_top num_words oov_char : Z) (x : list Z) : list Z :=
  map (fun w => if ((skip_top <=? w) && (w <? num_words))%Z then w else oov_char) x.

Definition load_data (a : Archive) (num_words skip_top start_char oov_char index_from : Z)
  : (list (list Z) * list Z) * (list (list Z) * list Z) :=
  let prep x := clip skip_top num_words oov_char (encode start_char index_from x) in
  ((map prep (raw_x_train a), raw_labels_train a),
   (map prep (raw_x_test a), raw_labels_test a)).

Inductive PadMode := pre | post.

(** Python slices [s[-n:]] and [s[:n]].  Note [s[-0:]] is the whole list. *)
Definition slice_last {A : Type} (n : nat) (s : list A) : list A :=
  if n =? 0 then s else skipn (length s - n) s.

Definition slice_first {A : Type} (n : nat) (s : list A) : list A := firstn n s.

(** Keras contract, one row of [keras.utils.pad_sequences]:
<<
    x = np.full((num_samples, maxlen), value)
    for idx, s in enumerate(sequences):
        if not len(s): continue
        if truncating == "pre":    trunc = s[-maxlen:]
        elif truncating == "post": trunc = s[:maxlen]
        if padding == "post":  x[idx, :len(trunc)] = trunc
        elif padding == "pre": x[idx, -len(trunc):] = trunc
>>
    The slice assignment raises when [trunc] is longer than the row, which
    only happens for [maxlen = 0]. *)
Definition pad_row (maxlen : nat) (padding truncating : PadMode) (value : Z)
  (s : list Z) : option (list Z) :=
  let x := repeat value maxlen in
  match s with
  | [] => Some x
  | _ :: _ =>
      let trunc := match truncating with
                   | pre => slice_last maxlen s
                   | post => slice_first maxlen s
                   end in
      if length trunc <=? maxlen then
        match padding with
        | post => Some (trunc ++ skipn (length trunc) x)
        | pre => Some (firstn (maxlen - length trunc) x ++ trunc)
        end
      else None
  end.

Definition pad_sequences (sequences : list (list Z)) (maxlen : nat)
  (padding truncating : PadMode) (value : Z) : option (list (list Z)) :=
  mapM (pad_row maxlen padding truncating value) sequences.

(** The notebook cell.  [load_data] and [pad_sequences] are called with the
    framework defaults for every argument the notebook does not pass. *)
Definition vocab_size : Z := 20000.
Definition maxlen : nat := 200.

Record Prepared := {
  x_train : list (list Z);
  y_train : list Z;
  x_val : list (list Z);
  y_val : list Z
}.

Definition loaded (a : Archive) := load_data a vocab_size 0 1 2 3.

Definition prepare (a : Archive) : option Prepared :=
  let '((x_train, y_train), (x_val, y_val)) := loaded a in
  x_train <- pad_sequences x_train maxlen pre pre 0 ;;
  x_val <- pad_sequences x_val maxlen pre pre 0 ;;
  Some {| x_train := x_train; y_train := y_train;
          x_val := x_val; y_val := y_val |}.

(** What the defaults do to one review: keep the last [maxlen] tokens and
    fill up with zeros on the left. *)
Definition left_padded (n : nat) (s : list Z) : list Z :=
  repeat 0%Z (n - length s) ++ skipn (length s - n) s.

Definition in_vocab (id : Z) : Prop := (0 <= id < vocab_size)%Z.

End Dataset.

(** ** Embedding layers (notebook cell 3) *)

(** Python's [zip]-style element-wise combination of two lists. *)
Fixpoint map2 {A B C : Type} (f : A -> B -> C) (u : list A) (v : list B) : list C :=
  match u, v with
  | a :: u', b :: v' => f a b :: map2 f u' v'
  | _, _ => []
  end.

Definition tabulate {A : Type} (n : nat) (f : nat -> A) : list A := map f (seq 0 n).

(** [tf.range(start=0, limit=limit, delta=1)]: the integers [0 .. limit-1]. *)
Definition tf_range (limit : nat) : list Z := map Z.of_nat (seq 0 limit).

Section Scalars.

(** The float type of the weights and its addition.  Nothing in this
    section depends on which arithmetic it is. *)
Variable F : Type.
Variable fadd : F -> F -> F.

(** Keras contract, [layers.Embedding(input_dim, output_dim)]: a weight
    table of shape [(input_dim, output_dim)], and a call that replaces each
    index by its row.  An index outside [0 .. input_dim-1] has no row:
    what the framework then does is left open by the specification, and
    the lookup has no result here.  [init i j] is the entry the initializer
    (or later training) put at row [i], column [j]. *)
Record Embedding := { embeddings : list (list F) }.

Definition row (output_dim : nat) (init : nat -> nat -> F) (i : nat) : list F :=
  tabulate output_dim (init i).

Definition Embedding_init (input_dim output_dim : nat) (init : nat -> nat -> F)
  : Embedding :=
  {| embeddings := tabulate input_dim (row output_dim init) |}.

Definition lookup (e : Embedding) (id : Z) : option (list F) :=
  if (id <? 0)%Z then None else nth_error (embeddings e) (Z.to_nat id).

Definition Embedding_call (e : Embedding) (ids : list Z) : option (list (list F)) :=
  mapM (lookup e) ids.

(** Element-wise sum of two vectors, and of two sequences of vectors. *)
Definition vadd (u v : list F) : list F := map2 fadd u v.
Definition add2 (x y : list (list F)) : list (list F) := map2 vadd x y.

Record TokenAndPositionEmbedding := {
  token_emb : Embedding;
  pos_emb : Embedding
}.

Definition TokenAndPositionEmbedding_init (maxlen vocab_size embed_dim : nat)
  (w_tok w_pos : nat -> nat -> F) : TokenAndPositionEmbedding :=
  {| token_emb := Embedding_init vocab_size embed_dim w_tok;
     pos_emb := Embedding_init maxlen embed_dim w_pos |}.

(** [TokenAndPositionEmbedding.call] on one sequence of token ids (a tensor
    of shape [(L,)]). *)
Definition TokenAndPositionEmbedding_call (self : TokenAndPositionEmbedding)
  (x : list Z) : option (list (list F)) :=
  let maxlen := length x in
  let positions := tf_range maxlen in
  positions <- Embedding_call (pos_emb self) positions ;;
  x <- Embedding_call (token_emb self) x ;;
  Some (add2 x positions).

(** The same call on a batch (a tensor of shape [(B, L)], given as [B] rows
    of length [L]): the positions are computed once from the last axis and
    [x + positions] broadcasts them over the batch axis. *)
Definition TokenAndPositionEmbedding_call_batch (self : TokenAndPositionEmbedding)
  (L : nat) (x : list (list Z)) : option (list (list (list F))) :=
  let maxlen := L in
  let positions := tf_range maxlen in
  positions <- Embedding_call (pos_emb self) positions ;;
  x <- mapM (Embedding_call (token_emb self)) x ;;
  Some (map (fun row => add2 row positions) x).

End Scalars.

(** ** The Keras layers the notebook composes

    The notebook never looks inside a tensor: it only calls layers and [+].
    Its code is therefore written once, against this interface, and read in
    two ways below: symbolically (which layer is applied to what) and
    numerically (shapes and real values). *)

Inductive Activation := linear | relu | softmax.

(** Layer hyper-parameters that are floats in the notebook ([rate=0.1],
    [epsilon=1e-6]) are kept as exact decimal fractions [num / den]. *)
Record Decimal := { num : Z; den : positive }.

Class Backend (T : Type) := {
  tensor_add : T -> T -> T;
  MultiHeadAttention : string -> nat -> nat -> T -> T -> T;
  Dense : string -> nat -> Activation -> T -> T;
  LayerNormalization : string -> Decimal -> T -> T;
  Dropout : string -> Decimal -> T -> T;
  GlobalAveragePooling1D : T -> T
}.

(** [keras.Sequential([l1, l2, ...])]: the layers applied left to right. *)
Definition Sequential {T : Type} (layers : list (T -> T)) (x : T) : T :=
  fold_left (fun acc layer => layer acc) layers x.

Definition rate_default : Decimal := {| num := 1; den := 10 |}.
Definition epsilon_1e6 : Decimal := {| num := 1; den := 1000000 |}.

Section Notebook.

Context {T : Type} {B : Backend T}.

(** *** TransformerBlock (notebook cell 2)

    Every layer object is identified by the attribute it is stored in. *)
Record TransformerBlock := {
  att : T -> T -> T;
  ffn : T -> T;
  layernorm1 : T -> T;
  layernorm2 : T -> T;
  dropout1 : T -> T;
  dropout2 : T -> T
}.

Definition TransformerBlock_init (embed_dim num_heads ff_dim : nat) (rate : Decimal)
  : TransformerBlock :=
  {| att := MultiHeadAttention "att" num_heads embed_dim;
     ffn := Sequential [Dense "ffn.0" ff_dim relu; Dense "ffn.1" embed_dim linear];
     layernorm1 := LayerNormalization "layernorm1" epsilon_1e6;
     layernorm2 := LayerNormalization "layernorm2" epsilon_1e6;
     dropout1 := Dropout "dropout1" rate;
     dropout2 := Dropout "dropout2" rate |}.

Definition TransformerBlock_call (self : TransformerBlock) (inputs : T) : T :=
  let attn_output := att self inputs inputs in
  let attn_output := dropout1 self attn_output in
  let out1 := layernorm1 self (tensor_add inputs attn_output) in
  let ffn_output := ffn self out1 in
  let ffn_output := dropout2 self ffn_output in
  layernorm2 self (tensor_add out1 ffn_output).

(** *** The model cell (notebook cell 5), from the transformer block on *)
Definition embed_dim : nat := 32.
Definition num_heads : nat := 2.
Definition ff_dim : nat := 32.

Definition transformer_block : TransformerBlock :=
  TransformerBlock_init embed_dim num_heads ff_dim rate_default.

(** Lines 181-185: the classifier head. *)
Definition classifier_head (x : T) : T :=
  let x := GlobalAveragePooling1D x in
  let x := Dropout "dropout" rate_default x in
  let x := Dense "dense" 20 relu x in
  let x := Dropout "dropout_1" rate_default x in
  Dense "dense_1" 2 softmax x.

(** Lines 180-185: everything after the embedding layer. *)
Definition model_body (x : T) : T :=
  let x := TransformerBlock_call transformer_block x in
  classifier_head x.

(** *** The steps of section 4.2 of the specification, in its own words *)
Definition step1_self_attention (self : TransformerBlock) (x : T) : T :=
  att self x x.
Definition step2_dropout (self : TransformerBlock) (a : T) : T :=
  dropout1 self a.
Definition step3_residual_norm (self : TransformerBlock) (x a : T) : T :=
  layernorm1 self (tensor_add x a).
Definition step4_feed_forward (embed_dim ff_dim : nat) (h : T) : T :=
  Dense "ffn.1" embed_dim linear (Dense "ffn.0" ff_dim relu h).
Definition step5_dropout (self : TransformerBlock) (f : T) : T :=
  dropout2 self f.
Definition step6_residual_norm (self : TransformerBlock) (h f : T) : T :=
  layernorm2 self (tensor_add h f).

Definition spec_TransformerBlock (embed_dim num_heads ff_dim : nat) (rate : Decimal)
  (x : T) : T :=
  let self := TransformerBlock_init embed_dim num_heads ff_dim rate in
  let s1 := step1_self_attention self x in
  let s2 := step2_dropout self s1 in
  let s3 := step3_residual_norm self x s2 in
  let s4 := step4_feed_forward embed_dim ff_dim s3 in
  let s5 := step5_dropout self s4 in
  step6_residual_norm self s3 s5.

End Notebook.

(** ** Symbolic reading: the graph of layer applications

    This is what the Keras functional API records when a layer is called
    on a symbolic tensor. *)
Inductive Graph :=
| GInput
| GAdd (a b : Graph)
| GAttention (layer : string) (num_heads key_dim : nat) (query value : Graph)
| GDense (layer : string) (units : nat) (activation : Activation) (x : Graph)
| GLayerNorm (layer : string) (epsilon : Decimal) (x : Graph)
| GDropout (layer : string) (rate : Decimal) (x : Graph)
| GPool (x : Graph).

#[export] Instance Symbolic : Backend Graph := {
  tensor_add := GAdd;
  MultiHeadAttention := GAttention;
  Dense := GDense;
  LayerNormalization := GLayerNorm;
  Dropout := GDropout;
  GlobalAveragePooling1D := GPool
}.

(** The layer applications a tensor depends on, earliest first, along its
    longest chain of dependencies.  When every application of a graph lies
    on that chain, the data flow alone fixes the order of execution. *)
Inductive Op :=
| OpAdd
| OpAttention (layer : string) (num_heads key_dim : nat)
| OpDense (layer : string) (units : nat) (activation : Activation)
| OpLayerNorm (layer : string) (epsilon : Decimal)
| OpDropout (layer : string) (rate : Decimal)
| OpPool.

Definition longest {A : Type} (u v : list A) : list A :=
  if length u <? length v then v else u.

Fixpoint chain (g : Graph) : list Op :=
  match g with
  | GInput => []
  | GAdd a b => longest (chain a) (chain b) ++ [OpAdd]
  | GAttention l h k q v => longest (chain q) (chain v) ++ [OpAttention l h k]
  | GDense l u a x => chain x ++ [OpDense l u a]
  | GLayerNorm l e x => chain x ++ [OpLayerNorm l e]
  | GDropout l r x => chain x ++ [OpDropout l r]
  | GPool x => chain x ++ [OpPool]
  end.

(** Every layer application of a graph, arguments first (a shared
    subgraph is listed once per use). *)
Fixpoint applications (g : Graph) : list Op :=
  match g with
  | GInput => []
  | GAdd a b => applications a ++ applications b ++ [OpAdd]
  | GAttention l h k q v => applications q ++ applications v ++ [OpAttention l h k]
  | GDense l u a x => applications x ++ [OpDense l u a]
  | GLayerNorm l e x => applications x ++ [OpLayerNorm l e]
  | GDropout l r x => applications x ++ [OpDropout l r]
  | GPool x => applications x ++ [OpPool]
  end.

(** Interpreting a graph in any backend. *)
Fixpoint denote {T : Type} {B : Backend T} (input : T) (g : Graph) : T :=
  match g with
  | GInput => input
  | GAdd a b => tensor_add (denote input a) (denote input b)
  | GAttention l h k q v => MultiHeadAttention l h k (denote input q) (denote input v)
  | GDense l u a x => Dense l u a (denote input x)
  | GLayerNorm l e x => LayerNormalization l e (denote input x)
  | GDropout l r x => Dropout l r (denote input x)
  | GPool x => GlobalAveragePooling1D (denote input x)
  end.

(** ** Numeric reading: shapes and real values

    A tensor is its shape together with the value at each index (a list of
    coordinates, outermost axis first).  Floats are idealised as real
    numbers; rounding, overflow and NaN are outside this model. *)

Record Tensor := { shape : list nat; data : list nat -> R }.

Fixpoint sum_upto (n : nat) (f : nat -> R) : R :=
  match n with
  | O => 0%R
  | S k => (sum_upto k f + f k)%R
  end.

Definition to_R (d : Decimal) : R := (IZR (num d) / IZR (Zpos (den d)))%R.

(** Keras activations on a vector [z] of [n] components.  Softmax is
    [exp z_j / sum_k exp z_k]. *)
Definition activate (a : Activation) (n : nat) (z : nat -> R) (j : nat) : R :=
  match a with
  | linear => z j
  | relu => Rmax 0 (z j)
  | softmax => (exp (z j) / sum_upto n (fun k => exp (z k)))%R
  end.

(** NumPy broadcasting of two shapes: aligned at the last axis; two sizes
    are compatible when they are equal or one of them is 1. *)
Definition broadcast_dim (x y : nat) : option nat :=
  if x =? y then Some x
  else if x =? 1 then Some y
  else if y =? 1 then Some x
  else None.

Fixpoint broadcast_rev (a b : list nat) : option (list nat) :=
  match a, b with
  | [], _ => Some b
  | _, [] => Some a
  | x :: a', y :: b' =>
      d <- broadcast_dim x y ;;
      r <- broadcast_rev a' b' ;;
      Some (d :: r)
  end.

Definition broadcast_shapes (a b : list nat) : option (list nat) :=
  r <- broadcast_rev (rev a) (rev b) ;;
  Some (rev r).

(** The index of the operand of shape [s] that contributes to the result
    at [idx]: leading axes the operand lacks are dropped, and an axis of
    size 1 is read at 0. *)
Definition source_index (s : list nat) (idx : list nat) : list nat :=
  map2 (fun d i => if d =? 1 then 0 else i) s (skipn (length idx - length s) idx).

Definition rank (t : Tensor) : nat := length (shape t).

(** The call returned a tensor of shape [s]. *)
Definition has_shape (x : option Tensor) (s : list nat) : Prop :=
  exists t, x = Some t /\ shape t = s.

(** Every vector along the last axis (of size [n]) is a probability
    distribution. *)
Definition rows_are_distributions (t : Tensor) (n : nat) : Prop :=
  forall prefix : list nat,
    (forall j, j < n -> (0 <= data t (prefix ++ [j]) <= 1)%R) /\
    sum_upto n (fun j => data t (prefix ++ [j])) = 1%R.

Section Weights.

(** The trained state of the model and the mode of the call: dense kernels
    and biases, the values computed by attention and by layer
    normalization (kept abstract), and for a training-mode call the
    dropout masks that were drawn. *)
Variable kernel : string -> nat -> nat -> R.
Variable bias : string -> nat -> R.
Variable attention : string -> nat -> nat -> Tensor -> Tensor -> list nat -> R.
Variable normalize : string -> Decimal -> Tensor -> list nat -> R.
Variable training : bool.
Variable keep : string -> list nat -> bool.

(** Keras contract, [x + y] on tensors. *)
Definition num_add (x y : option Tensor) : option Tensor :=
  x <- x ;;
  y <- y ;;
  s <- broadcast_shapes (shape x) (shape y) ;;
  Some {| shape := s;
          data := fun idx => (data x (source_index (shape x) idx)
                              + data y (source_index (shape y) idx))%R |}.

(** Keras contract, [layers.MultiHeadAttention(num_heads, key_dim)(query,
    value)] with [output_shape=None]: the result has the shape of the
    query, which is [(batch, ..., sequence, features)].  The notebook only
    ever passes the query as value. *)
Definition num_attention (l : string) (heads key_dim : nat) (q v : option Tensor)
  : option Tensor :=
  q <- q ;;
  v <- v ;;
  if 3 <=? rank q then
    Some {| shape := shape q; data := attention l heads key_dim q v |}
  else None.

(** Keras contract, [layers.Dense(units, activation)]: on the last axis,
    [activation(x . kernel + bias)]; the input has rank 2 at least. *)
Definition num_dense (l : string) (units : nat) (a : Activation) (x : option Tensor)
  : option Tensor :=
  x <- x ;;
  if 2 <=? rank x then
    let d := last (shape x) 0 in
    Some {| shape := removelast (shape x) ++ [units];
            data := fun idx =>
              let z j := (sum_upto d (fun i => data x (removelast idx ++ [i]) * kernel l i j)
                          + bias l j)%R in
              activate a units z (last idx 0) |}
  else None.

(** Keras contract, [layers.LayerNormalization(epsilon)]: same shape. *)
Definition num_layernorm (l : string) (eps : Decimal) (x : option Tensor)
  : option Tensor :=
  x <- x ;;
  Some {| shape := shape x; data := normalize l eps x |}.

(** Keras contract, [layers.Dropout(rate)]: the identity at inference; in
    training each entry is either zeroed or scaled by [1 / (1 - rate)]. *)
Definition num_dropout (l : string) (rate : Decimal) (x : option Tensor)
  : option Tensor :=
  x <- x ;;
  Some {| shape := shape x;
          data := fun idx =>
            if training then
              if keep l idx then (data x idx / (1 - to_R rate))%R else 0%R
            else data x idx |}.

(** Keras contract, [layers.GlobalAveragePooling1D()]: input
    [(batch, steps, features)], output [(batch, features)], the mean over
    the steps axis.  Over zero steps the mean is 0/0, which floats report
    as NaN: it is not a real number, so there is no result in this model. *)
Definition num_pool (x : option Tensor) : option Tensor :=
  x <- x ;;
  match shape x with
  | [b; steps; features] =>
      if steps =? 0 then None
      else
        Some {| shape := [b; features];
                data := fun idx =>
                  match idx with
                  | [i; k] => (sum_upto steps (fun p => data x [i; p; k]) / INR steps)%R
                  | _ => 0%R
                  end |}
  | _ => None
  end.

#[export] Instance Numeric : Backend (option Tensor) := {
  tensor_add := num_add;
  MultiHeadAttention := num_attention;
  Dense := num_dense;
  LayerNormalization := num_layernorm;
  Dropout := num_dropout;
  GlobalAveragePooling1D := num_pool
}.

(** *** The whole model (notebook cell 5) *)

Variable w_tok w_pos : nat -> nat -> R.

Definition embedding_layer : TokenAndPositionEmbedding R :=
  TokenAndPositionEmbedding_init Dataset.maxlen (Z.to_nat Dataset.vocab_size)
    embed_dim w_tok w_pos.

(** A batch of embedded sequences as a tensor of shape [(B, L, d)]. *)
Definition tensor_of_batch (b l d : nat) (x : list (list (list R))) : Tensor :=
  {| shape := [b; l; d];
     data := fun idx =>
       match idx with
       | [i; p; k] => nth k (nth p (nth i x []) []) 0%R
       | _ => 0%R
       end |}.

(** [inputs = layers.Input(shape=(maxlen,))]: the model takes batches whose
    rows have length [maxlen]. *)
Definition model (inputs : list (list Z)) : option Tensor :=
  if forallb (fun row => length row =? Dataset.maxlen) inputs then
    x <- TokenAndPositionEmbedding_call_batch Rplus embedding_layer Dataset.maxlen inputs ;;
    let x := Some (tensor_of_batch (length inputs) Dataset.maxlen embed_dim x) in
    model_body x
  else None.

End Weights.

(** ** Training (notebook cell 6) *)

Module Training.

(** Keras contract, [model.compile]: the strings are resolved to an
    optimizer, a loss and metrics; an unknown name raises. *)
Inductive Optimizer := SGD | RMSprop | Adam.
Inductive Loss :=
  BinaryCrossentropy | CategoricalCrossentropy | SparseCategoricalCrossentropy.
Inductive Metric := Accuracy.

Definition optimizers_get (name : string) : option Optimizer :=
  if (name =? "sgd")%string then Some SGD
  else if (name =? "rmsprop")%string then Some RMSprop
  else if (name =? "adam")%string then Some Adam
  else None.

Definition losses_get (name : string) : option Loss :=
  if (name =? "binary_crossentropy")%string then Some BinaryCrossentropy
  else if (name =? "categorical_crossentropy")%string then Some CategoricalCrossentropy
  else if (name =? "sparse_categorical_crossentropy")%string
       then Some SparseCategoricalCrossentropy
  else None.

Definition metrics_get (name : string) : option Metric :=
  if (name =? "accuracy")%string then Some Accuracy else None.

Record Compiled := {
  optimizer : Optimizer;
  loss : Loss;
  metrics : list Metric
}.

Definition compile (optimizer loss : string) (metrics : list string) : option Compiled :=
  o <- optimizers_get optimizer ;;
  l <- losses_get loss ;;
  ms <- mapM metrics_get metrics ;;
  Some {| optimizer := o; loss := l; metrics := ms |}.

(** Consecutive batches of [n] samples; the last one may be shorter. *)
Fixpoint batches_aux {A : Type} (fuel n : nat) (l : list A) : list (list A) :=
  match fuel with
  | O => []
  | S fuel' =>
      match l with
      | [] => []
      | _ :: _ => firstn n l :: batches_aux fuel' n (skipn n l)
      end
  end.

Definition batches {A : Type} (n : nat) (l : list A) : list (list A) :=
  batches_aux (length l) n l.

Section Fit.

(** A labelled example, the trainable state (weights and optimizer
    slots), and the type of reported numbers. *)
Variables Sample W V : Type.

(** One update of the optimizer on the loss of one batch; the evaluation of
    the loss and of a metric on a data set; the order in which epoch [e]
    visits the training samples ([shuffle=True] by default). *)
Variable train_step : Optimizer -> Loss -> W -> list Sample -> W.
Variable evaluate_loss : Loss -> W -> list Sample -> V.
Variable evaluate_metric : Metric -> W -> list Sample -> V.
Variable shuffle : nat -> list Sample -> list Sample.

(** What is reported at the end of an epoch for the validation data. *)
Record EpochLogs := {
  epoch : nat;
  steps : nat;
  val_loss : V;
  val_metrics : list (Metric * V)
}.

Definition run_epoch (m : Compiled) (batch_size e : nat) (train : list Sample) (w : W)
  : W :=
  fold_left (train_step (optimizer m) (loss m)) (batches batch_size (shuffle e train)) w.

Definition validate (m : Compiled) (e steps : nat) (val : list Sample) (w : W)
  : EpochLogs :=
  {| epoch := e;
     steps := steps;
     val_loss := evaluate_loss (loss m) w val;
     val_metrics := map (fun mt => (mt, evaluate_metric mt w val)) (metrics m) |}.

(** Keras contract, [model.fit(x, y, batch_size, epochs, validation_data)]:
<<
    for epoch in range(epochs):
        for batch in batches(shuffled data): train_step(batch)
        report(evaluate(validation_data))
>>
    [remaining] epochs are still to run, [e] is the number of the next. *)
Fixpoint fit_from (m : Compiled) (batch_size : nat) (train val : list Sample)
  (remaining e : nat) (w : W) : W * list EpochLogs :=
  match remaining with
  | O => (w, [])
  | S remaining' =>
      let w' := run_epoch m batch_size e train w in
      let logs := validate m e (length (batches batch_size (shuffle e train))) val w' in
      let (w_end, history) := fit_from m batch_size train val remaining' (S e) w' in
      (w_end, logs :: history)
  end.

Definition fit (m : Compiled) (train : list Sample) (batch_size epochs : nat)
  (validation_data : list Sample) (w : W) : W * list EpochLogs :=
  fit_from m batch_size train validation_data epochs 0 w.

(** The notebook cell. *)
Definition train_and_evaluate (train val : list Sample) (w : W)
  : option (W * list EpochLogs) :=
  model <- compile "adam" "sparse_categorical_crossentropy" ["accuracy"%string] ;;
  Some (fit model train 32 2 val w).

End Fit.

End Training.

(** ** Concrete inputs used in the examples below *)

(** An input whose vectors have one component, and zero weights. *)
Definition narrow_input : Tensor := {| shape := [1; 2; 1]; data := fun _ => 0%R |}.

Definition zero_weights : Backend (option Tensor) :=
  Numeric (fun _ _ _ => 0%R) (fun _ _ => 0%R) (fun _ _ _ _ _ _ => 0%R)
          (fun _ _ _ _ => 0%R) false (fun _ _ => true).

(** A batched input of shape (2, 3, 4), for a block with [embed_dim = 4]. *)
Definition small_input : Tensor := {| shape := [2; 3; 4]; data := fun _ => 1%R |}.

(** One sequence of 2 vectors of 3 components. *)
Definition small_sequence : Tensor := {| shape := [1; 2; 3]; data := fun _ => 1%R |}.

(** A tiny archive: one training review with an out-of-vocabulary word,
    one test review. *)
Definition sample_archive : Dataset.Archive :=
  {| Dataset.raw_x_train := [[10; 25000; 4]%Z];
     Dataset.raw_labels_train := [1%Z];
     Dataset.raw_x_test := [[7%Z]];
     Dataset.raw_labels_test := [0%Z] |}.

(** Integer tables for a layer with 3 positions, 5 tokens and 2 columns. *)
Definition small_tok (i j : nat) : Z := Z.of_nat (10 * i + j).
Definition small_pos (i j : nat) : Z := Z.of_nat (100 * (i + 1) + j).

(** A batch of 32 sequences of 200 padding tokens. *)
Definition zero_batch : list (list Z) := repeat (repeat 0%Z 200) 32.

(** ** Notions used to state further properties *)

(** The id that [load_data] gives the word of rank [w]: shifted by
    [index_from = 3], or [oov_char = 2] outside the vocabulary. *)
Definition word_ids (x : list Z) : list Z :=
  Dataset.clip 0 Dataset.vocab_size 2 (map (fun w => (w + 3)%Z) x).

(** The prepared row of a raw review of fewer than 200 words, and of a
    longer one. *)
Definition row_of_review (x : list Z) : list Z :=
  if length x <? 200
  then repeat 0%Z (199 - length x) ++ 1%Z :: word_ids x
  else word_ids (skipn (length x - 200) x).

(** Two calls returned tensors of one shape that agree at every index
    satisfying [P]. *)
Definition agree (P : list nat -> Prop) (x y : option Tensor) : Prop :=
  exists t u, x = Some t /\ y = Some u /\ shape t = shape u /\
    forall idx, P idx -> data t idx = data u idx.

(** The indices of sample [i] in a batched tensor. *)
Definition in_sample (i : nat) (idx : list nat) : Prop :=
  exists rest, rest <> [] /\ idx = i :: rest.

(** The same batch of sequences with the positions of every sequence
    rearranged by [sigma]. *)
Definition permute_steps (sigma : nat -> nat) (t : Tensor) : Tensor :=
  {| shape := shape t;
     data := fun idx =>
       match idx with
       | [i; p; k] => data t [i; sigma p; k]
       | _ => data t idx
       end |}.

Definition Rsum (l : list R) : R := fold_right Rplus 0%R l.

(** A raw (review, label) sample, prepared. *)
Definition row_and_label (sample : list Z * Z) : list Z * Z :=
  (row_of_review (fst sample), snd sample).

(** Two batches of two sequences that hold the same sequence at sample 0
    and different ones at sample 1. *)
Definition batch_a : Tensor :=
  {| shape := [2; 2; 3];
     data := fun idx =>
       match idx with
       | [O; p; k] => INR (p + k)
       | _ => 1%R
       end |}.

Definition batch_b : Tensor :=
  {| shape := [2; 2; 3];
     data := fun idx =>
       match idx with
       | [O; p; k] => INR (p + k)
       | _ => 2%R
       end |}.

(** One sequence of two different vectors: position [p] holds [p]. *)
Definition ramp_sequence : Tensor :=
  {| shape := [1; 2; 3];
     data := fun idx =>
       match idx with
       | [_; p; _] => INR p
       | _ => 0%R
       end |}.

(** All kernels 1, training mode, nothing dropped. *)
Definition unit_weights : Backend (option Tensor) :=
  Numeric (fun _ _ _ => 1%R) (fun _ _ => 0%R) (fun _ _ _ _ _ _ => 0%R)
          (fun _ _ _ _ => 0%R) true (fun _ _ => true).

(** A raw review of 200 words, and tables that differ beyond what a
    two-token input reads. *)
Definition long_review : list Z := map Z.of_nat (seq 1 200).
Definition other_tok (i j : nat) : Z := if i =? 2 then 0%Z else small_tok i j.
Definition other_pos (i j : nat) : Z := if i <? 2 then small_pos i j else 0%Z.

(** * Part II: properties *)

(** ** The error monad *)

Lemma mapM_total {A B : Type} (f : A -> option B) (g : A -> B) (l : list A) :
  (forall a, In a l -> f a = Some (g a)) -> mapM f l = Some (map g l).
Proof.
  induction l as [|a l IH]; intros Hf; simpl.
  - reflexivity.
  - rewrite (Hf a) by (left; reflexivity). simpl.
    rewrite IH by (intros; apply Hf; right; assumption).
    reflexivity.
Qed.

Lemma mapM_length {A B : Type} (f : A -> option B) (l : list A) (r : list B) :
  mapM f l = Some r -> length r = length l.
Proof.
  revert r. induction l as [|a l IH]; simpl; intros r H.
  - inversion H. reflexivity.
  - destruct (f a); simpl in H; [|discriminate].
    destruct (mapM f l); simpl in H; [|discriminate].
    inversion H. simpl. f_equal. apply IH. reflexivity.
Qed.

Lemma mapM_nth_error {A B : Type} (f : A -> option B) (l : list A) (r : list B) :
  mapM f l = Some r ->
  forall i a, nth_error l i = Some a ->
  exists b, f a = Some b /\ nth_error r i = Some b.
Proof.
  revert r. induction l as [|x l IH]; simpl; intros r H i a Hi.
  - destruct i; discriminate.
  - destruct (f x) as [y|] eqn:Hx; simpl in H; [|discriminate].
    destruct (mapM f l) as [ys|] eqn:Hl; simpl in H; [|discriminate].
    inversion H; subst r. destruct i as [|i]; simpl in *.
    + inversion Hi; subst. exists y. split; [assumption|reflexivity].
    + eapply IH; [reflexivity|eassumption].
Qed.

Lemma mapM_fails {A B : Type} (f : A -> option B) (l : list A) (a : A) :
  In a l -> f a = None -> mapM f l = None.
Proof.
  induction l as [|x l IH]; simpl; intros Hin Hf.
  - contradiction.
  - destruct Hin as [->|Hin].
    + rewrite Hf. reflexivity.
    + destruct (f x); simpl; [|reflexivity].
      rewrite (IH Hin Hf). reflexivity.
Qed.

(** ** Dataset preparation *)

Import Dataset.

Lemma firstn_repeat {A : Type} (a : A) (k n : nat) :
  k <= n -> firstn k (repeat a n) = repeat a k.
Proof.
  revert n. induction k as [|k IH]; intros n Hk; simpl.
  - reflexivity.
  - destruct n as [|n]; [lia|]. simpl. f_equal. apply IH. lia.
Qed.

Lemma pad_row_pre (n : nat) (s : list Z) :
  0 < n -> pad_row n pre pre 0 s = Some (left_padded n s).
Proof.
  intros Hn. unfold pad_row, left_padded.
  destruct s as [|t s].
  - simpl. rewrite Nat.sub_0_r, app_nil_r. reflexivity.
  - set (r := t :: s).
    unfold slice_last. destruct (Nat.eqb_spec n 0) as [E|_]; [lia|].
    assert (Hlen : length (skipn (length r - n) r) = Nat.min n (length r))
      by (rewrite length_skipn; lia).
    rewrite Hlen.
    destruct (Nat.leb_spec (Nat.min n (length r)) n) as [_|H]; [|lia].
    rewrite firstn_repeat by lia.
    replace (n - Nat.min n (length r)) with (n - length r) by lia. reflexivity.
Qed.

Lemma left_padded_length (n : nat) (s : list Z) : length (left_padded n s) = n.
Proof.
  unfold left_padded. rewrite length_app, repeat_length, length_skipn. lia.
Qed.

Lemma left_padded_long (n : nat) (s : list Z) :
  n <= length s -> left_padded n s = skipn (length s - n) s.
Proof.
  intros H. unfold left_padded.
  replace (n - length s) with 0 by lia. reflexivity.
Qed.

Lemma left_padded_short (n : nat) (s : list Z) :
  length s <= n -> left_padded n s = repeat 0%Z (n - length s) ++ s.
Proof.
  intros H. unfold left_padded.
  replace (length s - n) with 0 by lia. reflexivity.
Qed.

Lemma prepare_eq (a : Archive) :
  prepare a =
  Some {| x_train := map (left_padded maxlen) (fst (fst (loaded a)));
          y_train := snd (fst (loaded a));
          x_val := map (left_padded maxlen) (fst (snd (loaded a)));
          y_val := snd (snd (loaded a)) |}.
Proof.
  unfold prepare. destruct (loaded a) as [[xt yt] [xv yv]]. simpl.
  unfold pad_sequences.
  rewrite (mapM_total _ (left_padded maxlen))
    by (intros; apply pad_row_pre; unfold maxlen; lia).
  simpl.
  rewrite (mapM_total _ (left_padded maxlen))
    by (intros; apply pad_row_pre; unfold maxlen; lia).
  reflexivity.
Qed.

Lemma clip_in_vocab (x : list Z) : Forall in_vocab (clip 0 vocab_size 2 x).
Proof.
  unfold clip. apply Forall_forall. intros w Hw.
  apply in_map_iff in Hw. destruct Hw as [v [<- _]].
  unfold in_vocab, vocab_size.
  destruct (Z.leb_spec 0 v); destruct (Z.ltb_spec v 20000); simpl; lia.
Qed.

Lemma loaded_in_vocab (a : Archive) (s : list Z) :
  In s (fst (fst (loaded a))) \/ In s (fst (snd (loaded a))) -> Forall in_vocab s.
Proof.
  unfold loaded, load_data. cbn [fst snd].
  intros [H|H]; apply in_map_iff in H; destruct H as [x [<- _]];
    apply clip_in_vocab.
Qed.

Lemma Forall_skipn' {A : Type} (P : A -> Prop) (k : nat) (l : list A) :
  Forall P l -> Forall P (skipn k l).
Proof.
  revert l. induction k as [|k IH]; intros l H; simpl.
  - assumption.
  - destruct l as [|a l]; [constructor|]. apply IH. inversion H; assumption.
Qed.

Lemma left_padded_in_vocab (n : nat) (s : list Z) :
  Forall in_vocab s -> Forall in_vocab (left_padded n s).
Proof.
  intros H. unfold left_padded. apply Forall_app. split.
  - apply Forall_forall. intros z Hz. apply repeat_spec in Hz. subst z.
    unfold in_vocab, vocab_size. lia.
  - apply Forall_skipn'. assumption.
Qed.

(** C5. After dataset preparation every sequence of the training and of
    the validation set has length 200 and every token id lies in
    [0, 20000); preparation never fails and keeps the number of reviews. *)
Theorem prepared_sequences_fixed_length_in_vocab (a : Archive) :
  maxlen = 200 /\ vocab_size = 20000%Z /\
  exists p, prepare a = Some p /\
    length (x_train p) = length (raw_x_train a) /\
    length (x_val p) = length (raw_x_test a) /\
    forall s, In s (x_train p) \/ In s (x_val p) ->
      length s = 200 /\ Forall (fun id => (0 <= id < 20000)%Z) s.
Proof.
  split; [reflexivity|]. split; [reflexivity|].
  eexists. split; [apply prepare_eq|]. simpl.
  repeat rewrite length_map. split; [reflexivity|]. split; [reflexivity|].
  intros s Hs.
  assert (H : exists r, s = left_padded maxlen r /\ Forall in_vocab r).
  { destruct Hs as [Hs|Hs]; apply in_map_iff in Hs; destruct Hs as [r [<- Hr]];
      exists r; (split; [reflexivity|]); apply (loaded_in_vocab a); auto. }
  destruct H as [r [-> Hr]]. split.
  - apply left_padded_length.
  - apply (left_padded_in_vocab maxlen Hr).
Qed.

(** C10. Padding and truncation happen at the front: each prepared row is
    the loaded review cut to its last 200 tokens and filled up with zeros
    on the left.  A review of more than 200 tokens keeps exactly its last
    200; a shorter one is its own suffix of the row, after the zeros. *)
Theorem pad_sequences_pads_and_truncates_in_front (a : Archive) :
  (exists p, prepare a = Some p /\
     x_train p = map (left_padded 200) (fst (fst (loaded a))) /\
     x_val p = map (left_padded 200) (fst (snd (loaded a)))) /\
  forall s : list Z,
    pad_row 200 pre pre 0 s = Some (left_padded 200 s) /\
    length (left_padded 200 s) = 200 /\
    (200 < length s ->
       left_padded 200 s = skipn (length s - 200) s /\
       s = firstn (length s - 200) s ++ left_padded 200 s) /\
    (length s <= 200 ->
       left_padded 200 s = repeat 0%Z (200 - length s) ++ s).
Proof.
  split.
  - eexists. split; [apply prepare_eq|]. simpl. split; reflexivity.
  - intros s. split; [apply pad_row_pre; lia|].
    split; [apply left_padded_length|]. split.
    + intros H. rewrite left_padded_long by lia.
      split; [reflexivity|]. symmetry. apply firstn_skipn.
    + apply left_padded_short.
Qed.

(** ** Embedding layers *)

Lemma nth_error_tabulate {A : Type} (f : nat -> A) (n i : nat) :
  nth_error (tabulate n f) i = if i <? n then Some (f i) else None.
Proof.
  unfold tabulate. destruct (Nat.ltb_spec i n) as [H|H].
  - rewrite nth_error_map, nth_error_seq.
    destruct (Nat.ltb_spec i n); [reflexivity|lia].
  - apply nth_error_None. rewrite length_map, length_seq. assumption.
Qed.

Lemma tabulate_length {A : Type} (f : nat -> A) (n : nat) : length (tabulate n f) = n.
Proof. unfold tabulate. rewrite length_map, length_seq. reflexivity. Qed.

Lemma map2_length {A B C : Type} (f : A -> B -> C) (u : list A) (v : list B) :
  length (map2 f u v) = Nat.min (length u) (length v).
Proof.
  revert v. induction u as [|a u IH]; intros [|b v]; simpl; try reflexivity.
  rewrite IH. reflexivity.
Qed.

Lemma map2_nth_error {A B C : Type} (f : A -> B -> C) (u : list A) (v : list B)
  (i : nat) (a : A) (b : B) :
  nth_error u i = Some a -> nth_error v i = Some b ->
  nth_error (map2 f u v) i = Some (f a b).
Proof.
  revert v i. induction u as [|x u IH]; intros [|y v] [|i]; simpl;
    try discriminate.
  - intros [= ->] [= ->]. reflexivity.
  - apply IH.
Qed.

Lemma tf_range_nth_error (n i : nat) :
  i < n -> nth_error (tf_range n) i = Some (Z.of_nat i).
Proof.
  intros H. unfold tf_range. rewrite nth_error_map, nth_error_seq.
  destruct (Nat.ltb_spec i n); [reflexivity|lia].
Qed.

Lemma tf_range_length (n : nat) : length (tf_range n) = n.
Proof. unfold tf_range. rewrite length_map, length_seq. reflexivity. Qed.

Lemma tf_range_In (n : nat) (z : Z) :
  In z (tf_range n) <-> exists i, i < n /\ z = Z.of_nat i.
Proof.
  unfold tf_range. rewrite in_map_iff. split.
  - intros [i [<- Hi]]. apply in_seq in Hi. exists i. split; [lia|reflexivity].
  - intros [i [Hi ->]]. exists i. split; [reflexivity|]. apply in_seq. lia.
Qed.

Section EmbeddingFacts.

Variable F : Type.
Variable fadd : F -> F -> F.

Lemma lookup_init (rows cols : nat) (w : nat -> nat -> F) (id : Z) :
  lookup (Embedding_init rows cols w) id =
  if ((0 <=? id) && (id <? Z.of_nat rows))%Z
  then Some (row cols w (Z.to_nat id)) else None.
Proof.
  unfold lookup, Embedding_init. cbn [embeddings].
  destruct (Z.ltb_spec id 0) as [Hneg|Hpos].
  - destruct (Z.leb_spec 0 id); [lia|]. reflexivity.
  - destruct (Z.leb_spec 0 id); [|lia]. cbn [andb].
    rewrite nth_error_tabulate.
    destruct (Z.ltb_spec id (Z.of_nat rows)); destruct (Nat.ltb_spec (Z.to_nat id) rows);
      try lia; reflexivity.
Qed.

Lemma lookup_init_in_range (rows cols : nat) (w : nat -> nat -> F) (id : Z) :
  (0 <= id < Z.of_nat rows)%Z ->
  lookup (Embedding_init rows cols w) id = Some (row cols w (Z.to_nat id)).
Proof.
  intros H. rewrite lookup_init.
  destruct (Z.leb_spec 0 id); destruct (Z.ltb_spec id (Z.of_nat rows)); try lia.
  reflexivity.
Qed.

Lemma lookup_init_out_of_range (rows cols : nat) (w : nat -> nat -> F) (id : Z) :
  ~ (0 <= id < Z.of_nat rows)%Z ->
  lookup (Embedding_init rows cols w) id = None.
Proof.
  intros H. rewrite lookup_init.
  destruct (Z.leb_spec 0 id); destruct (Z.ltb_spec id (Z.of_nat rows)); try lia;
    reflexivity.
Qed.

Lemma Embedding_call_in_range (rows cols : nat) (w : nat -> nat -> F) (ids : list Z) :
  Forall (fun id => (0 <= id < Z.of_nat rows)%Z) ids ->
  Embedding_call (Embedding_init rows cols w) ids =
  Some (map (fun id => row cols w (Z.to_nat id)) ids).
Proof.
  intros H. unfold Embedding_call. apply mapM_total.
  intros id Hid. apply lookup_init_in_range.
  rewrite Forall_forall in H. apply H. assumption.
Qed.

Lemma positions_in_range (rows cols : nat) (w : nat -> nat -> F) (n : nat) :
  n <= rows ->
  Embedding_call (Embedding_init rows cols w) (tf_range n) =
  Some (map (row cols w) (seq 0 n)).
Proof.
  intros H. rewrite Embedding_call_in_range.
  - unfold tf_range. rewrite map_map. f_equal. apply map_ext.
    intros i. rewrite Nat2Z.id. reflexivity.
  - apply Forall_forall. intros z Hz. apply tf_range_In in Hz.
    destruct Hz as [i [Hi ->]]. lia.
Qed.

Lemma positions_out_of_range (rows cols : nat) (w : nat -> nat -> F) (n : nat) :
  rows < n ->
  Embedding_call (Embedding_init rows cols w) (tf_range n) = None.
Proof.
  intros H. unfold Embedding_call.
  apply mapM_fails with (a := Z.of_nat rows).
  - apply tf_range_In. exists rows. split; [assumption|reflexivity].
  - apply lookup_init_out_of_range. lia.
Qed.

Lemma vadd_rows (cols : nat) (u v : nat -> F) :
  vadd fadd (tabulate cols u) (tabulate cols v) =
  tabulate cols (fun k => fadd (u k) (v k)).
Proof.
  unfold vadd, tabulate. induction (seq 0 cols) as [|k l IH]; simpl.
  - reflexivity.
  - rewrite IH. reflexivity.
Qed.

Lemma call_characterised (maxlen vocab_size embed_dim : nat)
  (w_tok w_pos : nat -> nat -> F) (x : list Z) (out : list (list F)) :
  TokenAndPositionEmbedding_call fadd
    (TokenAndPositionEmbedding_init maxlen vocab_size embed_dim w_tok w_pos) x = Some out ->
  length out = length x /\
  forall i id, nth_error x i = Some id ->
    (0 <= id < Z.of_nat vocab_size)%Z /\ i < maxlen /\
    lookup (Embedding_init vocab_size embed_dim w_tok) id
      = Some (row embed_dim w_tok (Z.to_nat id)) /\
    lookup (Embedding_init maxlen embed_dim w_pos) (Z.of_nat i)
      = Some (row embed_dim w_pos i) /\
    nth_error out i
      = Some (vadd fadd (row embed_dim w_tok (Z.to_nat id)) (row embed_dim w_pos i)).
Proof.
  unfold TokenAndPositionEmbedding_call, TokenAndPositionEmbedding_init.
  cbn [token_emb pos_emb].
  destruct (Embedding_call (Embedding_init maxlen embed_dim w_pos) (tf_range (length x)))
    as [ps|] eqn:Hps; [|discriminate].
  destruct (Embedding_call (Embedding_init vocab_size embed_dim w_tok) x)
    as [ts|] eqn:Hts; [|discriminate].
  cbn [bind]. intros [= <-].
  pose proof (mapM_length _ _ Hps) as Lps. rewrite tf_range_length in Lps.
  pose proof (mapM_length _ _ Hts) as Lts.
  split.
  - unfold add2. rewrite map2_length. lia.
  - intros i id Hi.
    assert (Hlt : i < length x) by (apply nth_error_Some; congruence).
    destruct (mapM_nth_error _ _ Hts _ Hi) as [t [Ht Hti]].
    destruct (mapM_nth_error _ _ Hps _ (tf_range_nth_error Hlt)) as [p [Hp Hpi]].
    rewrite lookup_init in Ht, Hp.
    destruct ((0 <=? id) && (id <? Z.of_nat vocab_size))%Z eqn:Eid; [|discriminate].
    destruct ((0 <=? Z.of_nat i) && (Z.of_nat i <? Z.of_nat maxlen))%Z eqn:Ei;
      [|discriminate].
    apply andb_true_iff in Eid, Ei. destruct Eid as [E1 E2]. destruct Ei as [_ E3].
    apply Z.leb_le in E1. apply Z.ltb_lt in E2, E3.
    injection Ht as <-. injection Hp as <-. rewrite Nat2Z.id in *.
    split; [lia|]. split; [lia|].
    split; [apply lookup_init_in_range; lia|].
    split; [rewrite <- (Nat2Z.id i) at 2; apply lookup_init_in_range; lia|].
    unfold add2. apply map2_nth_error; assumption.
Qed.

Lemma call_succeeds (maxlen vocab_size embed_dim : nat)
  (w_tok w_pos : nat -> nat -> F) (x : list Z) :
  Forall (fun id => (0 <= id < Z.of_nat vocab_size)%Z) x ->
  length x <= maxlen ->
  TokenAndPositionEmbedding_call fadd
    (TokenAndPositionEmbedding_init maxlen vocab_size embed_dim w_tok w_pos) x =
  Some (add2 fadd (map (fun id => row embed_dim w_tok (Z.to_nat id)) x)
                  (map (row embed_dim w_pos) (seq 0 (length x)))).
Proof.
  intros Hx Hlen.
  unfold TokenAndPositionEmbedding_call, TokenAndPositionEmbedding_init.
  cbn [token_emb pos_emb].
  rewrite positions_in_range by assumption. cbn [bind].
  rewrite Embedding_call_in_range by assumption. reflexivity.
Qed.

Lemma call_fails_too_long (maxlen vocab_size embed_dim : nat)
  (w_tok w_pos : nat -> nat -> F) (x : list Z) :
  maxlen < length x ->
  TokenAndPositionEmbedding_call fadd
    (TokenAndPositionEmbedding_init maxlen vocab_size embed_dim w_tok w_pos) x = None.
Proof.
  intros Hlen.
  unfold TokenAndPositionEmbedding_call, TokenAndPositionEmbedding_init.
  cbn [token_emb pos_emb].
  rewrite positions_out_of_range by assumption. reflexivity.
Qed.

Lemma call_batch_succeeds (maxlen vocab_size embed_dim : nat)
  (w_tok w_pos : nat -> nat -> F) (L : nat) (x : list (list Z)) :
  Forall (Forall (fun id => (0 <= id < Z.of_nat vocab_size)%Z)) x ->
  L <= maxlen ->
  TokenAndPositionEmbedding_call_batch fadd
    (TokenAndPositionEmbedding_init maxlen vocab_size embed_dim w_tok w_pos) L x =
  Some (map (fun s => add2 fadd (map (fun id => row embed_dim w_tok (Z.to_nat id)) s)
                                (map (row embed_dim w_pos) (seq 0 L))) x).
Proof.
  intros Hx Hlen.
  unfold TokenAndPositionEmbedding_call_batch, TokenAndPositionEmbedding_init.
  cbn [token_emb pos_emb].
  rewrite positions_in_range by assumption. cbn [bind].
  rewrite (mapM_total _ (map (fun id => row embed_dim w_tok (Z.to_nat id)))).
  - cbn [bind]. rewrite map_map. reflexivity.
  - intros s Hs. apply Embedding_call_in_range.
    rewrite Forall_forall in Hx. apply Hx. assumption.
Qed.

(** The batched call is the per-sequence call on every row. *)
Lemma call_batch_rows (self : TokenAndPositionEmbedding F) (L : nat)
  (x : list (list Z)) (out : list (list (list F))) :
  Forall (fun s => length s = L) x ->
  TokenAndPositionEmbedding_call_batch fadd self L x = Some out ->
  mapM (TokenAndPositionEmbedding_call fadd self) x = Some out.
Proof.
  unfold TokenAndPositionEmbedding_call_batch.
  destruct (Embedding_call (pos_emb self) (tf_range L)) as [ps|] eqn:Hps;
    [|discriminate].
  cbn [bind]. revert out. induction x as [|s x IH]; intros out Hx; cbn.
  - intros [= <-]. reflexivity.
  - pose proof (Forall_inv Hx) as Hs. pose proof (Forall_inv_tail Hx) as Hx'.
    cbn beta in Hs.
    unfold TokenAndPositionEmbedding_call at 1. rewrite Hs, Hps. cbn [bind].
    destruct (Embedding_call (token_emb self) s) as [ts|]; [|discriminate].
    cbn [bind].
    destruct (mapM (Embedding_call (token_emb self)) x) as [tss|] eqn:Htss;
      [|discriminate].
    cbn [bind]. intros [= <-].
    rewrite (IH _ Hx' eq_refl). reflexivity.
Qed.

(** C2. The call returns, for the id at each position [i], the
    element-wise sum of that id's row of the token table and row [i] of
    the position table, for [i = 0 .. length x - 1]; it does return when
    the ids are in the vocabulary and the sequence is no longer than the
    position table. *)
Theorem call_returns_token_plus_position_embedding
  (maxlen vocab_size embed_dim : nat) (w_tok w_pos : nat -> nat -> F) (x : list Z) :
  let self := TokenAndPositionEmbedding_init maxlen vocab_size embed_dim w_tok w_pos in
  (Forall (fun id => (0 <= id < Z.of_nat vocab_size)%Z) x -> length x <= maxlen ->
     exists out, TokenAndPositionEmbedding_call fadd self x = Some out) /\
  (forall out, TokenAndPositionEmbedding_call fadd self x = Some out ->
    length out = length x /\
    forall i id, nth_error x i = Some id ->
      exists tok pos,
        lookup (token_emb self) id = Some tok /\
        lookup (pos_emb self) (Z.of_nat i) = Some pos /\
        length tok = embed_dim /\ length pos = embed_dim /\
        nth_error out i = Some (vadd fadd tok pos) /\
        vadd fadd tok pos =
          tabulate embed_dim (fun k => fadd (w_tok (Z.to_nat id) k) (w_pos i k))) /\
  (forall (xs : list (list Z)) (outs : list (list (list F))),
     Forall (fun s => length s = length x) xs ->
     TokenAndPositionEmbedding_call_batch fadd self (length x) xs = Some outs ->
     mapM (TokenAndPositionEmbedding_call fadd self) xs = Some outs).
Proof.
  intros self. split; [|split].
  3: { intros xs outs Hxs Houts. apply call_batch_rows with (L := length x); assumption. }
  - intros Hx Hlen. eexists. apply call_succeeds; assumption.
  - intros out Hout. destruct (call_characterised _ _ _ _ _ _ Hout) as [Hlen Hrows].
    split; [assumption|]. intros i id Hi.
    destruct (Hrows i id Hi) as (_ & _ & Ht & Hp & Ho).
    exists (row embed_dim w_tok (Z.to_nat id)), (row embed_dim w_pos i).
    split; [exact Ht|]. split; [exact Hp|].
    unfold row. rewrite !tabulate_length.
    split; [reflexivity|]. split; [reflexivity|].
    split; [exact Ho|]. apply vadd_rows.
Qed.

(** C8. With every id in [0, vocab_size) and at most [maxlen] ids, no
    lookup fails and the call returns, on one sequence and on a batch of
    sequences of a common length. *)
Theorem call_has_no_error_on_valid_input
  (maxlen vocab_size embed_dim : nat) (w_tok w_pos : nat -> nat -> F) :
  let self := TokenAndPositionEmbedding_init maxlen vocab_size embed_dim w_tok w_pos in
  let valid := Forall (fun id => (0 <= id < Z.of_nat vocab_size)%Z) in
  (forall x : list Z, valid x -> length x <= maxlen ->
     (forall id, In id x -> lookup (token_emb self) id <> None) /\
     (forall i, i < length x -> lookup (pos_emb self) (Z.of_nat i) <> None) /\
     Embedding_call (token_emb self) x <> None /\
     Embedding_call (pos_emb self) (tf_range (length x)) <> None /\
     exists out, TokenAndPositionEmbedding_call fadd self x = Some out) /\
  (forall (L : nat) (xs : list (list Z)), Forall valid xs -> L <= maxlen ->
     exists outs, TokenAndPositionEmbedding_call_batch fadd self L xs = Some outs).
Proof.
  intros self valid. split.
  - intros x Hx Hlen. unfold self, TokenAndPositionEmbedding_init.
    cbn [token_emb pos_emb]. repeat split.
    + intros id Hid. rewrite lookup_init_in_range; [discriminate|].
      unfold valid in Hx. rewrite Forall_forall in Hx. apply Hx. assumption.
    + intros i Hi. rewrite lookup_init_in_range; [discriminate|lia].
    + rewrite Embedding_call_in_range by assumption. discriminate.
    + rewrite positions_in_range by assumption. discriminate.
    + eexists. apply call_succeeds; assumption.
  - intros L xs Hxs HL. eexists. apply call_batch_succeeds; assumption.
Qed.

(** C9. The positions come from the length of the input, not from the
    constructor's [maxlen]: an input of length [L <= maxlen] (ids in the
    vocabulary) makes the call return [L] output vectors, the i-th being
    the token row of its id plus row [i] of the position table, for
    [i = 0 .. L-1].  The position table has exactly [maxlen] rows, so the
    position lookup is defined exactly when [L <= maxlen]; a longer input
    makes the call fail. *)
Theorem call_positions_follow_input_length
  (maxlen vocab_size embed_dim : nat) (w_tok w_pos : nat -> nat -> F) (x : list Z) :
  let self := TokenAndPositionEmbedding_init maxlen vocab_size embed_dim w_tok w_pos in
  length (embeddings (pos_emb self)) = maxlen /\
  (length x <= maxlen ->
     Embedding_call (pos_emb self) (tf_range (length x)) =
     Some (map (row embed_dim w_pos) (seq 0 (length x)))) /\
  (maxlen < length x ->
     Embedding_call (pos_emb self) (tf_range (length x)) = None /\
     TokenAndPositionEmbedding_call fadd self x = None) /\
  (forall out, TokenAndPositionEmbedding_call fadd self x = Some out ->
    length x <= maxlen /\ length out = length x /\
    forall i id, nth_error x i = Some id ->
      nth_error out i =
      Some (vadd fadd (row embed_dim w_tok (Z.to_nat id)) (row embed_dim w_pos i))) /\
  (Forall (fun id => (0 <= id < Z.of_nat vocab_size)%Z) x -> length x <= maxlen ->
     exists out,
       TokenAndPositionEmbedding_call fadd self x = Some out /\
       length out = length x /\
       out = add2 fadd (map (fun id => row embed_dim w_tok (Z.to_nat id)) x)
                       (map (row embed_dim w_pos) (seq 0 (length x))) /\
       forall i id, nth_error x i = Some id ->
         nth_error out i =
         Some (vadd fadd (row embed_dim w_tok (Z.to_nat id)) (row embed_dim w_pos i))).
Proof.
  intros self. split; [|split; [|split; [|split]]].
  5: { intros Hx Hlen. unfold self.
       pose proof (@call_succeeds maxlen vocab_size embed_dim w_tok w_pos x Hx Hlen)
         as Hcall.
       eexists. split; [exact Hcall|].
       destruct (call_characterised _ _ _ _ _ _ Hcall) as [Hl Hrows].
       split; [exact Hl|]. split; [reflexivity|].
       intros i id Hi. apply (Hrows i id Hi). }
  - unfold self, TokenAndPositionEmbedding_init, Embedding_init.
    cbn [pos_emb embeddings]. apply tabulate_length.
  - unfold self, TokenAndPositionEmbedding_init. cbn [pos_emb].
    apply positions_in_range.
  - intros H. split; [|apply call_fails_too_long; assumption].
    unfold self, TokenAndPositionEmbedding_init. cbn [pos_emb].
    apply positions_out_of_range; assumption.
  - intros out Hout. unfold self in Hout.
    destruct (Nat.le_gt_cases (length x) maxlen) as [Hle|Hgt].
    + destruct (call_characterised _ _ _ _ _ _ Hout) as [Hlen Hrows].
      split; [assumption|]. split; [assumption|].
      intros i id Hi. apply (Hrows i id Hi).
    + rewrite call_fails_too_long in Hout by assumption. discriminate.
Qed.

End EmbeddingFacts.

(** ** Softmax *)

Lemma sum_upto_pos (n : nat) (f : nat -> R) :
  (forall k, (0 < f k)%R) -> 0 < n -> (0 < sum_upto n f)%R.
Proof.
  intros Hf Hn. induction n as [|n IH]; [lia|].
  simpl. destruct n as [|n].
  - simpl. specialize (Hf 0). lra.
  - specialize (Hf (S n)). assert (0 < sum_upto (S n) f)%R by (apply IH; lia). lra.
Qed.

Lemma sum_upto_nonneg (n : nat) (f : nat -> R) :
  (forall k, (0 < f k)%R) -> (0 <= sum_upto n f)%R.
Proof.
  intros Hf. induction n as [|n IH]; simpl; [lra|].
  specialize (Hf n). lra.
Qed.

Lemma sum_upto_ge_term (n : nat) (f : nat -> R) (j : nat) :
  (forall k, (0 < f k)%R) -> j < n -> (f j <= sum_upto n f)%R.
Proof.
  intros Hf Hj. induction n as [|n IH]; [lia|].
  simpl. destruct (Nat.eq_dec j n) as [->|Hne].
  - pose proof (@sum_upto_nonneg n f Hf). lra.
  - assert (f j <= sum_upto n f)%R by (apply IH; lia).
    specialize (Hf n). lra.
Qed.

Lemma sum_upto_scale (n : nat) (f : nat -> R) (c : R) :
  sum_upto n (fun k => (f k * c)%R) = (sum_upto n f * c)%R.
Proof.
  induction n as [|n IH]; simpl; [lra|]. rewrite IH. lra.
Qed.

Lemma sum_upto_ext (n : nat) (f g : nat -> R) :
  (forall k, k < n -> f k = g k) -> sum_upto n f = sum_upto n g.
Proof.
  intros H. induction n as [|n IH]; simpl; [reflexivity|].
  rewrite IH by (intros; apply H; lia). rewrite (H n) by lia. reflexivity.
Qed.

Lemma softmax_in_unit_interval (n : nat) (z : nat -> R) (j : nat) :
  j < n -> (0 <= activate softmax n z j <= 1)%R.
Proof.
  intros Hj. unfold activate.
  set (f := fun k => exp (z k)).
  assert (Hf : forall k, (0 < f k)%R) by (intros k; apply exp_pos).
  assert (HS : (0 < sum_upto n f)%R) by (apply sum_upto_pos; [assumption|lia]).
  pose proof (@sum_upto_ge_term n f j Hf Hj) as Hle.
  change (exp (z j)) with (f j). specialize (Hf j). split.
  - apply Rlt_le. apply Rdiv_lt_0_compat; assumption.
  - apply (Rmult_le_reg_r (sum_upto n f)); [assumption|].
    unfold Rdiv. rewrite Rmult_assoc, Rinv_l by lra. lra.
Qed.

Lemma softmax_sums_to_one (n : nat) (z : nat -> R) :
  0 < n -> sum_upto n (activate softmax n z) = 1%R.
Proof.
  intros Hn. unfold activate, Rdiv.
  rewrite (sum_upto_scale n (fun k => exp (z k))).
  apply Rinv_r.
  assert (0 < sum_upto n (fun k => exp (z k)))%R; [|lra].
  apply sum_upto_pos; [intros k; apply exp_pos|assumption].
Qed.

(** ** Shapes of the Keras layers *)

Lemma broadcast_rev_same (s : list nat) : broadcast_rev s s = Some s.
Proof.
  induction s as [|x s IH]; simpl; [reflexivity|].
  unfold broadcast_dim. rewrite Nat.eqb_refl. simpl. rewrite IH. reflexivity.
Qed.

Lemma broadcast_shapes_same (s : list nat) : broadcast_shapes s s = Some s.
Proof.
  unfold broadcast_shapes. rewrite broadcast_rev_same. simpl.
  rewrite rev_involutive. reflexivity.
Qed.

Lemma removelast_snoc {A : Type} (l : list A) (a : A) : removelast (l ++ [a]) = l.
Proof. apply removelast_last. Qed.

Section NumericFacts.

Variable kernel : string -> nat -> nat -> R.
Variable bias : string -> nat -> R.
Variable attention : string -> nat -> nat -> Tensor -> Tensor -> list nat -> R.
Variable normalize : string -> Decimal -> Tensor -> list nat -> R.
Variable training : bool.
Variable keep : string -> list nat -> bool.

Lemma has_shape_add (x y : option Tensor) (s : list nat) :
  has_shape x s -> has_shape y s -> has_shape (num_add x y) s.
Proof.
  intros [t [-> Ht]] [u [-> Hu]]. unfold num_add. cbn [bind].
  rewrite Ht, Hu, broadcast_shapes_same. cbn [bind].
  eexists. split; reflexivity.
Qed.

Lemma has_shape_attention (l : string) (h k : nat) (q v : option Tensor)
  (s s' : list nat) :
  has_shape q s -> has_shape v s' -> 3 <= length s ->
  has_shape (num_attention attention l h k q v) s.
Proof.
  intros [t [-> Ht]] [u [-> Hu]] Hr. unfold num_attention, rank. cbn [bind].
  rewrite Ht. destruct (Nat.leb_spec 3 (length s)); [|lia].
  eexists. split; reflexivity.
Qed.

Lemma has_shape_dense (l : string) (units : nat) (a : Activation)
  (x : option Tensor) (s : list nat) :
  has_shape x s -> 2 <= length s ->
  has_shape (num_dense kernel bias l units a x) (removelast s ++ [units]).
Proof.
  intros [t [-> Ht]] Hr. unfold num_dense, rank. cbn [bind].
  rewrite Ht. destruct (Nat.leb_spec 2 (length s)); [|lia].
  eexists. split; reflexivity.
Qed.

Lemma has_shape_layernorm (l : string) (eps : Decimal) (x : option Tensor)
  (s : list nat) :
  has_shape x s -> has_shape (num_layernorm normalize l eps x) s.
Proof.
  intros [t [-> Ht]]. eexists. split; [reflexivity|]. assumption.
Qed.

Lemma has_shape_dropout (l : string) (rate : Decimal) (x : option Tensor)
  (s : list nat) :
  has_shape x s -> has_shape (num_dropout training keep l rate x) s.
Proof.
  intros [t [-> Ht]]. eexists. split; [reflexivity|]. assumption.
Qed.

Lemma has_shape_pool (x : option Tensor) (b steps features : nat) :
  0 < steps ->
  has_shape x [b; steps; features] -> has_shape (num_pool x) [b; features].
Proof.
  intros Hpos [t [-> Ht]]. unfold num_pool. cbn [bind]. rewrite Ht.
  destruct (Nat.eqb_spec steps 0); [lia|].
  eexists. split; reflexivity.
Qed.

(** The value the pooling layer puts at [(i, k)]: the mean over the steps. *)
Lemma pool_is_mean (t : Tensor) (b steps features : nat) :
  0 < steps ->
  shape t = [b; steps; features] ->
  exists p, num_pool (Some t) = Some p /\ shape p = [b; features] /\
    forall i k,
      data p [i; k] = (sum_upto steps (fun q => data t [i; q; k]) / INR steps)%R.
Proof.
  intros Hpos Ht. unfold num_pool. cbn [bind]. rewrite Ht.
  destruct (Nat.eqb_spec steps 0); [lia|].
  eexists. split; [reflexivity|]. split; [reflexivity|].
  intros i k. reflexivity.
Qed.

Lemma dense_softmax_distribution (l : string) (units : nat) (x : option Tensor)
  (s : list nat) :
  has_shape x s -> 2 <= length s -> 0 < units ->
  exists t, num_dense kernel bias l units softmax x = Some t /\
    shape t = removelast s ++ [units] /\ rows_are_distributions t units.
Proof.
  intros [u [-> Hu]] Hr Hn. unfold num_dense, rank. cbn [bind].
  rewrite Hu. destruct (Nat.leb_spec 2 (length s)); [|lia].
  eexists. split; [reflexivity|]. split; [reflexivity|].
  intros prefix. cbn [data]. split.
  - intros j Hj. rewrite removelast_snoc, last_last.
    apply softmax_in_unit_interval. assumption.
  - rewrite <- (@softmax_sums_to_one units
      (fun j => (sum_upto (last s 0%nat)
                   (fun i => data u (prefix ++ [i]) * kernel l i j) + bias l j)%R) Hn).
    apply sum_upto_ext. intros j _.
    rewrite removelast_snoc, last_last. reflexivity.
Qed.

End NumericFacts.

(** ** The transformer block and the classifier head, numerically *)

Section BlockFacts.

Variable kernel : string -> nat -> nat -> R.
Variable bias : string -> nat -> R.
Variable attention : string -> nat -> nat -> Tensor -> Tensor -> list nat -> R.
Variable normalize : string -> Decimal -> Tensor -> list nat -> R.
Variable training : bool.
Variable keep : string -> list nat -> bool.

Let K : Backend (option Tensor) :=
  Numeric kernel bias attention normalize training keep.

Lemma block_has_shape (embed_dim heads ff : nat) (rate : Decimal)
  (x : option Tensor) (s : list nat) :
  has_shape x s -> 3 <= length s -> last s 0 = embed_dim ->
  has_shape (TransformerBlock_call (B := K)
               (TransformerBlock_init (B := K) embed_dim heads ff rate) x) s.
Proof.
  intros Hx Hr Hl.
  unfold TransformerBlock_call, TransformerBlock_init.
  cbn [att ffn layernorm1 layernorm2 dropout1 dropout2].
  unfold Sequential. cbn [fold_left].
  unfold K. cbn [tensor_add MultiHeadAttention Dense LayerNormalization Dropout Numeric].
  assert (Hout1 : has_shape
            (num_layernorm normalize "layernorm1" epsilon_1e6
               (num_add x (num_dropout training keep "dropout1" rate
                             (num_attention attention "att" heads embed_dim x x)))) s).
  { apply has_shape_layernorm, has_shape_add; [assumption|].
    apply has_shape_dropout. apply has_shape_attention with (s' := s); assumption. }
  apply has_shape_layernorm, has_shape_add; [assumption|].
  apply has_shape_dropout.
  assert (Hs : s <> []) by (destruct s; [simpl in Hr; lia|discriminate]).
  assert (E : removelast s ++ [embed_dim] = s)
    by (rewrite <- Hl; symmetry; apply app_removelast_last; assumption).
  assert (Hlen : 2 <= length (removelast s ++ [ff])).
  { rewrite length_app. simpl. rewrite <- E, length_app in Hr. simpl in Hr. lia. }
  pose proof (has_shape_dense kernel bias "ffn.1" embed_dim linear
                (has_shape_dense kernel bias "ffn.0" ff relu Hout1 ltac:(lia)) Hlen) as Hd.
  rewrite removelast_snoc, E in Hd. exact Hd.
Qed.

Lemma head_distribution (x : option Tensor) (b steps features : nat) :
  0 < steps ->
  has_shape x [b; steps; features] ->
  exists t, classifier_head (B := K) x = Some t /\
    shape t = [b; 2] /\ rows_are_distributions t 2.
Proof.
  intros Hpos Hx. unfold classifier_head.
  unfold K. cbn [Dense Dropout GlobalAveragePooling1D Numeric].
  apply (has_shape_pool Hpos) in Hx.
  apply (has_shape_dropout training keep "dropout" rate_default) in Hx.
  apply (has_shape_dense kernel bias "dense" 20 relu) in Hx; [|simpl; lia].
  apply (has_shape_dropout training keep "dropout_1" rate_default) in Hx.
  apply (dense_softmax_distribution kernel bias "dense_1") with (units := 2) in Hx;
    [|simpl; lia|lia].
  exact Hx.
Qed.

End BlockFacts.

(** ** The transformer block *)

(** C1. The call is the six steps of the specification, in that order:
    as a graph of layer applications, for every backend, and with the
    steps spelled out. *)
Theorem TransformerBlock_call_applies_the_six_steps :
  (forall (embed_dim num_heads ff_dim : nat) (rate : Decimal),
     let attn := GAttention "att" num_heads embed_dim GInput GInput in
     let out1 := GLayerNorm "layernorm1" epsilon_1e6
                   (GAdd GInput (GDropout "dropout1" rate attn)) in
     let ffn_out := GDense "ffn.1" embed_dim linear (GDense "ffn.0" ff_dim relu out1) in
     let result :=
       TransformerBlock_call (TransformerBlock_init embed_dim num_heads ff_dim rate)
         GInput in
     result = GLayerNorm "layernorm2" epsilon_1e6
                (GAdd out1 (GDropout "dropout2" rate ffn_out)) /\
     chain result =
       [ OpAttention "att" num_heads embed_dim;
         OpDropout "dropout1" rate;
         OpAdd; OpLayerNorm "layernorm1" epsilon_1e6;
         OpDense "ffn.0" ff_dim relu; OpDense "ffn.1" embed_dim linear;
         OpDropout "dropout2" rate;
         OpAdd; OpLayerNorm "layernorm2" epsilon_1e6 ] /\
     forall op, In op (applications result) -> In op (chain result)) /\
  (forall (T : Type) (B : Backend T) (embed_dim num_heads ff_dim : nat)
          (rate : Decimal) (inputs : T),
     TransformerBlock_call (TransformerBlock_init embed_dim num_heads ff_dim rate) inputs
     = spec_TransformerBlock embed_dim num_heads ff_dim rate inputs /\
     TransformerBlock_call (TransformerBlock_init embed_dim num_heads ff_dim rate) inputs
     = denote inputs
         (TransformerBlock_call
            (TransformerBlock_init embed_dim num_heads ff_dim rate) GInput)).
Proof.
  split.
  - intros. split; [reflexivity|]. split; [reflexivity|].
    intros op Hop. cbn in Hop |- *. intuition.
  - intros. split; reflexivity.
Qed.

(** C3. On every input of the shape the block is built for, a batch of
    sequences of vectors of [embed_dim] components (batch, sequence
    length, embed_dim), the call returns a tensor of exactly the input's
    shape, whatever [num_heads] and [ff_dim] are. *)
Theorem TransformerBlock_preserves_shape_at_embed_dim
  (kernel : string -> nat -> nat -> R) (bias : string -> nat -> R)
  (attention : string -> nat -> nat -> Tensor -> Tensor -> list nat -> R)
  (normalize : string -> Decimal -> Tensor -> list nat -> R)
  (training : bool) (keep : string -> list nat -> bool)
  (embed_dim num_heads ff_dim : nat) (rate : Decimal) (t : Tensor) :
  0 < embed_dim -> 0 < num_heads -> 0 < ff_dim ->
  3 <= rank t ->
  last (shape t) 0 = embed_dim ->
  let K := Numeric kernel bias attention normalize training keep in
  exists t',
    TransformerBlock_call (B := K)
      (TransformerBlock_init (B := K) embed_dim num_heads ff_dim rate) (Some t)
    = Some t' /\
    shape t' = shape t.
Proof.
  intros _ _ _ Hr Hl K.
  apply (block_has_shape kernel bias attention normalize training keep
           num_heads ff_dim rate (x := Some t) (s := shape t)).
  - exists t. split; reflexivity.
  - exact Hr.
  - exact Hl.
Qed.

(** ** The classifier head *)

(** C4. The head pools the sequence to one vector per sample (the mean
    over the positions), then applies dropout, a dense layer with relu,
    dropout and a dense layer with softmax; for every batch of sequences
    of vectors (of at least one position) its output has 2 components per
    sample, each in [0,1], which sum to 1 (in exact real arithmetic). *)
Theorem classifier_head_outputs_two_class_distribution :
  classifier_head GInput
  = GDense "dense_1" 2 softmax
      (GDropout "dropout_1" rate_default
         (GDense "dense" 20 relu
            (GDropout "dropout" rate_default (GPool GInput)))) /\
  chain (classifier_head GInput)
  = [ OpPool; OpDropout "dropout" rate_default; OpDense "dense" 20 relu;
      OpDropout "dropout_1" rate_default; OpDense "dense_1" 2 softmax ] /\
  forall (kernel : string -> nat -> nat -> R) (bias : string -> nat -> R)
         (attention : string -> nat -> nat -> Tensor -> Tensor -> list nat -> R)
         (normalize : string -> Decimal -> Tensor -> list nat -> R)
         (training : bool) (keep : string -> list nat -> bool)
         (t : Tensor) (b steps features : nat),
    shape t = [b; steps; features] ->
    0 < steps ->
    let K := Numeric kernel bias attention normalize training keep in
    (exists p, GlobalAveragePooling1D (Backend := K) (Some t) = Some p /\
       shape p = [b; features] /\
       forall i k,
         data p [i; k] = (sum_upto steps (fun q => data t [i; q; k]) / INR steps)%R) /\
    (classifier_head (B := K) (Some t)
     = denote (B := K) (Some t) (classifier_head GInput)) /\
    exists out, classifier_head (B := K) (Some t) = Some out /\
      shape out = [b; 2] /\
      forall i : nat,
        (0 <= data out [i; 0%nat] <= 1)%R /\
        (0 <= data out [i; 1%nat] <= 1)%R /\
        (data out [i; 0%nat] + data out [i; 1%nat] = 1)%R.
Proof.
  split; [reflexivity|]. split; [reflexivity|].
  intros kernel bias attention normalize training keep t b steps features Ht Hpos K.
  split; [apply pool_is_mean; assumption|].
  split; [reflexivity|].
  destruct (head_distribution kernel bias attention normalize training keep
              (x := Some t) (b := b) (steps := steps) (features := features) Hpos)
    as [out [Hout [Hs Hd]]].
  { exists t. split; [reflexivity|assumption]. }
  exists out. split; [exact Hout|]. split; [exact Hs|].
  intros i. destruct (Hd [i]) as [Hrange Hsum]. simpl in Hrange, Hsum.
  split; [apply Hrange; lia|]. split; [apply Hrange; lia|]. lra.
Qed.

(** ** The whole model *)

Lemma forallb_lengths (n : nat) (x : list (list Z)) :
  Forall (fun row => length row = n) x ->
  forallb (fun row => length row =? n) x = true.
Proof.
  intros H. apply forallb_forall. intros row Hrow.
  rewrite Forall_forall in H. apply Nat.eqb_eq. apply H. assumption.
Qed.

Lemma model_on_valid_batch
  (kernel : string -> nat -> nat -> R) (bias : string -> nat -> R)
  (attention : string -> nat -> nat -> Tensor -> Tensor -> list nat -> R)
  (normalize : string -> Decimal -> Tensor -> list nat -> R)
  (training : bool) (keep : string -> list nat -> bool)
  (w_tok w_pos : nat -> nat -> R) (inputs : list (list Z)) :
  Forall (fun row => length row = maxlen) inputs ->
  Forall (Forall in_vocab) inputs ->
  exists out,
    model kernel bias attention normalize training keep w_tok w_pos inputs = Some out /\
    shape out = [length inputs; 2] /\ rows_are_distributions out 2.
Proof.
  intros Hlen Hids. unfold model.
  rewrite (forallb_lengths Hlen).
  unfold embedding_layer. rewrite call_batch_succeeds.
  - cbn [bind]. unfold model_body.
    eapply head_distribution; [|
    apply block_has_shape with (s := [length inputs; maxlen; embed_dim])].
    + unfold maxlen. lia.
    + eexists. split; reflexivity.
    + simpl. lia.
    + reflexivity.
  - apply Forall_forall. intros row Hrow. rewrite Forall_forall in Hids.
    apply Forall_forall. intros id Hid.
    pose proof (proj1 (Forall_forall _ _) (Hids row Hrow) id Hid) as Hv.
    unfold in_vocab in Hv. rewrite Z2Nat.id by (unfold vocab_size; lia). exact Hv.
  - apply Nat.le_refl.
Qed.

(** C6. A batch of 32 token sequences of length 200 (ids in the
    vocabulary) gives an output of shape (32, 2) with every value in
    [0,1]. *)
Theorem model_maps_32_by_200_to_32_by_2_probabilities
  (kernel : string -> nat -> nat -> R) (bias : string -> nat -> R)
  (attention : string -> nat -> nat -> Tensor -> Tensor -> list nat -> R)
  (normalize : string -> Decimal -> Tensor -> list nat -> R)
  (training : bool) (keep : string -> list nat -> bool)
  (w_tok w_pos : nat -> nat -> R) (inputs : list (list Z)) :
  length inputs = 32 ->
  Forall (fun row => length row = 200) inputs ->
  Forall (Forall (fun id => (0 <= id < 20000)%Z)) inputs ->
  exists out,
    model kernel bias attention normalize training keep w_tok w_pos inputs = Some out /\
    shape out = [32; 2] /\
    forall i j, i < 32 -> j < 2 -> (0 <= data out [i; j] <= 1)%R.
Proof.
  intros H32 Hlen Hids.
  destruct (model_on_valid_batch kernel bias attention normalize training keep
              w_tok w_pos Hlen Hids) as [out [Hout [Hs Hd]]].
  exists out. split; [exact Hout|]. split; [rewrite Hs, H32; reflexivity|].
  intros i j _ Hj. apply (proj1 (Hd [i])). exact Hj.
Qed.

(** ** Training *)

Import Training.

Lemma batches_aux_nil {A : Type} (fuel n : nat) : @batches_aux A fuel n [] = [].
Proof. destruct fuel; reflexivity. Qed.

Lemma batches_aux_concat {A : Type} (fuel n : nat) (l : list A) :
  0 < n -> length l <= fuel -> concat (batches_aux fuel n l) = l.
Proof.
  intros Hn. revert l. induction fuel as [|fuel IH]; intros l Hl.
  - destruct l; [reflexivity|simpl in Hl; lia].
  - destruct l as [|a l]; [reflexivity|].
    cbn [batches_aux concat]. rewrite IH.
    + apply firstn_skipn.
    + rewrite length_skipn. cbn [length] in *. lia.
Qed.

Lemma batches_aux_sizes {A : Type} (fuel n : nat) (l : list A) :
  0 < n -> Forall (fun b => 0 < length b <= n) (batches_aux fuel n l).
Proof.
  intros Hn. revert l. induction fuel as [|fuel IH]; intros l.
  - constructor.
  - destruct l as [|a l]; [constructor|].
    cbn [batches_aux]. constructor; [|apply IH].
    rewrite length_firstn. simpl length. lia.
Qed.

Lemma batches_aux_count {A : Type} (fuel n : nat) (l : list A) :
  0 < n -> length l <= fuel ->
  length (batches_aux fuel n l) = (length l + n - 1) / n.
Proof.
  intros Hn. revert l. induction fuel as [|fuel IH]; intros l Hl.
  - destruct l; [|simpl in Hl; lia]. simpl.
    symmetry. apply Nat.div_small. lia.
  - destruct l as [|a l].
    + simpl. symmetry. apply Nat.div_small. lia.
    + cbn [batches_aux length]. rewrite IH by (rewrite length_skipn; cbn [length] in *; lia).
      rewrite length_skipn. simpl length.
      destruct (Nat.le_gt_cases (S (length l)) n) as [Hle|Hgt].
      * replace (S (length l) - n) with 0 by lia.
        rewrite (Nat.div_small (0 + n - 1) n) by lia.
        apply (Nat.div_unique _ _ 1 (S (length l) - 1)); lia.
      * replace (S (length l) + n - 1) with ((S (length l) - n + n - 1) + 1 * n) by lia.
        rewrite Nat.div_add by lia. lia.
Qed.

Lemma batches_aux_full {A : Type} (fuel n : nat) (l : list A) (i : nat) :
  S i < length (batches_aux fuel n l) ->
  length (nth i (batches_aux fuel n l) []) = n.
Proof.
  revert l i. induction fuel as [|fuel IH]; intros l i Hi.
  - simpl in Hi. lia.
  - destruct l as [|a l]; [simpl in Hi; lia|].
    cbn [batches_aux] in *. cbn [length] in Hi. destruct i as [|i].
    + cbn [nth]. rewrite length_firstn.
      destruct (Nat.le_gt_cases (length (a :: l)) n) as [Hle|Hgt]; [|lia].
      rewrite skipn_all2 in Hi by assumption.
      rewrite batches_aux_nil in Hi. simpl in Hi. lia.
    + cbn [nth]. apply IH. lia.
Qed.

(** C7. The training cell compiles the model with the Adam optimizer, the
    sparse categorical cross-entropy loss and the accuracy metric, and
    fits it for exactly 2 epochs.  Each epoch is one pass over all training
    examples in batches of 32 (the last batch may be smaller), every step
    being an update of that optimizer on that loss; after each pass the
    loss and the accuracy on the validation data are reported. *)
Theorem training_runs_two_epochs_in_batches_of_32
  (Sample W V : Type)
  (train_step : Optimizer -> Loss -> W -> list Sample -> W)
  (evaluate_loss : Loss -> W -> list Sample -> V)
  (evaluate_metric : Metric -> W -> list Sample -> V)
  (shuffle : nat -> list Sample -> list Sample)
  (train val : list Sample) (w0 : W) :
  (forall e l, Permutation l (shuffle e l)) ->
  let pass e w :=
    fold_left (train_step Adam SparseCategoricalCrossentropy)
              (batches 32 (shuffle e train)) w in
  let report e w :=
    {| epoch := e;
       steps := (length train + 31) / 32;
       val_loss := evaluate_loss SparseCategoricalCrossentropy w val;
       val_metrics := [(Accuracy, evaluate_metric Accuracy w val)] |} in
  let w1 := pass 0 w0 in
  let w2 := pass 1 w1 in
  train_and_evaluate train_step evaluate_loss evaluate_metric shuffle train val w0
  = Some (w2, [report 0 w1; report 1 w2]) /\
  forall e,
    Permutation train (concat (batches 32 (shuffle e train))) /\
    Forall (fun b => 0 < length b <= 32) (batches 32 (shuffle e train)) /\
    length (batches 32 (shuffle e train)) = (length train + 31) / 32 /\
    forall i, S i < length (batches 32 (shuffle e train)) ->
      length (nth i (batches 32 (shuffle e train)) []) = 32.
Proof.
  intros Hperm pass report w1 w2.
  assert (Hcount : forall e,
            length (batches 32 (shuffle e train)) = (length train + 31) / 32).
  { intros e. unfold batches. rewrite batches_aux_count by lia.
    rewrite <- (Permutation_length (Hperm e train)).
    f_equal. lia. }
  split.
  - unfold train_and_evaluate, compile. cbn [optimizers_get losses_get String.eqb
      Ascii.eqb Bool.eqb bind mapM metrics_get].
    unfold fit. cbn [fit_from]. unfold validate, run_epoch.
    cbn [optimizer loss metrics map]. rewrite !Hcount. reflexivity.
  - intros e. split; [|split; [|split]].
    + unfold batches. rewrite batches_aux_concat by lia. apply Hperm.
    + apply batches_aux_sizes. lia.
    + apply Hcount.
    + intros i Hi. apply batches_aux_full. exact Hi.
Qed.

(** * Part III: the theorems at concrete inputs *)

Example pad_row_long :
  pad_row 3 pre pre 0 [1; 2; 3; 4; 5]%Z = Some [3; 4; 5]%Z.
Proof. reflexivity. Qed.

Example pad_row_short :
  pad_row 3 pre pre 0 [7]%Z = Some [0; 0; 7]%Z.
Proof. reflexivity. Qed.

Example pad_row_post :
  pad_row 3 post post 0 [1; 2; 3; 4; 5]%Z = Some [1; 2; 3]%Z /\
  pad_row 3 post post 0 [7]%Z = Some [7; 0; 0]%Z.
Proof. split; reflexivity. Qed.

Example pad_row_zero_width : pad_row 0 pre pre 0 [7]%Z = None.
Proof. reflexivity. Qed.

Example notebook_steps_per_epoch :
  length (Training.batches 32 (repeat tt (Z.to_nat 25000))) = 782.
Proof. vm_compute. reflexivity. Qed.

Example broadcast_narrow : broadcast_shapes [1; 2; 1] [1; 2; 32] = Some [1; 2; 32].
Proof. reflexivity. Qed.

Example broadcast_mismatch : broadcast_shapes [1; 2; 5] [1; 2; 32] = None.
Proof. reflexivity. Qed.

Lemma prepared_sequences_witness :
  exists p, prepare sample_archive = Some p /\
    In (repeat 0%Z 196 ++ [1; 13; 2; 7]%Z) (x_train p) /\
    length (repeat 0%Z 196 ++ [1; 13; 2; 7]%Z) = 200 /\
    Forall (fun id => (0 <= id < 20000)%Z) (repeat 0%Z 196 ++ [1; 13; 2; 7]%Z).
Proof.
  destruct (prepared_sequences_fixed_length_in_vocab sample_archive)
    as (_ & _ & p & Hp & _ & _ & H).
  exists p.
  assert (Hin : In (repeat 0%Z 196 ++ [1; 13; 2; 7]%Z) (x_train p)).
  { rewrite prepare_eq in Hp. injection Hp as <-. left. reflexivity. }
  split; [exact Hp|]. split; [exact Hin|].
  exact (H _ (or_introl Hin)).
Defined.

Lemma pad_sequences_witness :
  left_padded 200 [5; 6]%Z = repeat 0%Z 198 ++ [5; 6]%Z /\
  left_padded 200 (repeat 9%Z 201) = repeat 9%Z 200.
Proof.
  destruct (pad_sequences_pads_and_truncates_in_front sample_archive) as [_ H].
  split.
  - destruct (H [5; 6]%Z) as (_ & _ & _ & Hshort).
    apply Hshort. simpl. lia.
  - destruct (H (repeat 9%Z 201)) as (_ & _ & Hlong & _).
    destruct Hlong as [E _]; [rewrite repeat_length; lia|].
    rewrite E. reflexivity.
Defined.

Lemma call_sum_witness :
  exists out,
    TokenAndPositionEmbedding_call Z.add
      (TokenAndPositionEmbedding_init 3 5 2 small_tok small_pos) [4; 0]%Z = Some out /\
    length out = 2.
Proof.
  destruct (@call_returns_token_plus_position_embedding Z Z.add 3 5 2
              small_tok small_pos [4; 0]%Z) as [Hex Hchar].
  destruct Hex as [out Hout].
  - repeat constructor; simpl; lia.
  - simpl. lia.
  - exists out. split; [exact Hout|]. exact (proj1 (proj1 Hchar out Hout)).
Defined.

Example call_sum_values :
  TokenAndPositionEmbedding_call Z.add
    (TokenAndPositionEmbedding_init 3 5 2 small_tok small_pos) [4; 0]%Z
  = Some [[140; 142]; [200; 202]]%Z.
Proof. reflexivity. Qed.

Example call_out_of_vocabulary :
  TokenAndPositionEmbedding_call Z.add
    (TokenAndPositionEmbedding_init 3 5 2 small_tok small_pos) [5]%Z = None.
Proof. reflexivity. Qed.

Lemma call_no_error_witness :
  exists out,
    TokenAndPositionEmbedding_call Z.add
      (TokenAndPositionEmbedding_init 3 5 2 small_tok small_pos) [4; 0]%Z = Some out.
Proof.
  refine (proj2 (proj2 (proj2 (proj2 (proj1
    (@call_has_no_error_on_valid_input Z Z.add 3 5 2 small_tok small_pos)
    [4; 0]%Z _ _))))).
  - repeat constructor; simpl; lia.
  - simpl. lia.
Defined.

Lemma call_positions_witness :
  (exists out,
     TokenAndPositionEmbedding_call Z.add
       (TokenAndPositionEmbedding_init 3 5 2 small_tok small_pos) [4; 0]%Z = Some out /\
     length out = 2 /\
     out = [[140; 142]; [200; 202]]%Z) /\
  Embedding_call (pos_emb (TokenAndPositionEmbedding_init 3 5 2 small_tok small_pos))
    (tf_range 2) = Some [[100; 101]; [200; 201]]%Z /\
  TokenAndPositionEmbedding_call Z.add
    (TokenAndPositionEmbedding_init 3 5 2 small_tok small_pos) [1; 1; 1; 1]%Z = None.
Proof.
  split; [|split].
  - destruct (proj2 (proj2 (proj2 (proj2
      (@call_positions_follow_input_length Z Z.add 3 5 2 small_tok small_pos
         [4; 0]%Z))))) as (out & Hout & Hlen & Heq & _).
    + repeat constructor; simpl; lia.
    + simpl. lia.
    + exists out. split; [exact Hout|]. split; [exact Hlen|]. exact Heq.
  - refine (proj1 (proj2
      (@call_positions_follow_input_length Z Z.add 3 5 2 small_tok small_pos [4; 0]%Z)) _).
    simpl. lia.
  - refine (proj2 (proj1 (proj2 (proj2
      (@call_positions_follow_input_length Z Z.add 3 5 2 small_tok small_pos
         [1; 1; 1; 1]%Z))) _)).
    simpl. lia.
Defined.

Lemma block_shape_witness :
  exists t',
    TransformerBlock_call (B := zero_weights)
      (TransformerBlock_init (B := zero_weights) 4 2 8 rate_default) (Some small_input)
    = Some t' /\
    shape t' = [2; 3; 4].
Proof.
  refine (@TransformerBlock_preserves_shape_at_embed_dim
            (fun _ _ _ => 0%R) (fun _ _ => 0%R) (fun _ _ _ _ _ _ => 0%R)
            (fun _ _ _ _ => 0%R) false (fun _ _ => true) 4 2 8
            rate_default small_input _ _ _ _ _).
  - lia.
  - lia.
  - lia.
  - unfold rank. simpl. lia.
  - reflexivity.
Defined.

Lemma classifier_head_witness :
  exists out,
    classifier_head (B := zero_weights) (Some small_sequence) = Some out /\
    shape out = [1; 2] /\
    forall i : nat,
      (0 <= data out [i; 0%nat] <= 1)%R /\
      (0 <= data out [i; 1%nat] <= 1)%R /\
      (data out [i; 0%nat] + data out [i; 1%nat] = 1)%R.
Proof.
  refine (proj2 (proj2 (proj2 (proj2 classifier_head_outputs_two_class_distribution)
            (fun _ _ _ => 0%R) (fun _ _ => 0%R) (fun _ _ _ _ _ _ => 0%R)
            (fun _ _ _ _ => 0%R) false (fun _ _ => true)
            small_sequence 1 2 3 _ _))).
  - reflexivity.
  - lia.
Defined.

Lemma model_witness :
  exists out,
    model (fun _ _ _ => 0%R) (fun _ _ => 0%R) (fun _ _ _ _ _ _ => 0%R)
          (fun _ _ _ _ => 0%R) false (fun _ _ => true)
          (fun _ _ => 0%R) (fun _ _ => 0%R) zero_batch = Some out /\
    shape out = [32; 2] /\
    forall i j, i < 32 -> j < 2 -> (0 <= data out [i; j] <= 1)%R.
Proof.
  apply (@model_maps_32_by_200_to_32_by_2_probabilities
           (fun _ _ _ => 0%R) (fun _ _ => 0%R) (fun _ _ _ _ _ _ => 0%R)
           (fun _ _ _ _ => 0%R) false (fun _ _ => true)
           (fun _ _ => 0%R) (fun _ _ => 0%R) zero_batch).
  - reflexivity.
  - apply Forall_forall. intros row Hrow. apply repeat_spec in Hrow.
    subst row. reflexivity.
  - apply Forall_forall. intros row Hrow. apply repeat_spec in Hrow.
    subst row. apply Forall_forall. intros id Hid. apply repeat_spec in Hid.
    subst id. lia.
Defined.

Lemma training_witness :
  train_and_evaluate
    (fun _ _ (w : nat) (b : list nat) => w + length b)
    (fun _ (w : nat) (v : list nat) => w)
    (fun _ (w : nat) (v : list nat) => length v)
    (fun _ l => l) (seq 0 40) [1; 2; 3] 0
  = Some (80, [ {| epoch := 0; steps := 2; val_loss := 40;
                   val_metrics := [(Accuracy, 3)] |};
                {| epoch := 1; steps := 2; val_loss := 80;
                   val_metrics := [(Accuracy, 3)] |} ]).
Proof.
  exact (proj1 (@training_runs_two_epochs_in_batches_of_32 nat nat nat
                  (fun _ _ (w : nat) (b : list nat) => w + length b)
                  (fun _ (w : nat) (v : list nat) => w)
                  (fun _ (w : nat) (v : list nat) => length v)
                  (fun _ l => l) (seq 0 40) [1; 2; 3] 0
                  (fun _ l => Permutation_refl l))).
Defined.

(** * Part IV: further properties of the notebook's code *)

(** ** Dataset preparation, review by review *)

Lemma loaded_review (x : list Z) :
  clip 0 vocab_size 2 (encode 1 3 x) = 1%Z :: word_ids x.
Proof. reflexivity. Qed.

Lemma word_ids_length (x : list Z) : length (word_ids x) = length x.
Proof. unfold word_ids, clip. rewrite !length_map. reflexivity. Qed.

Lemma word_ids_skipn (k : nat) (x : list Z) :
  skipn k (word_ids x) = word_ids (skipn k x).
Proof. unfold word_ids, clip. rewrite !skipn_map. reflexivity. Qed.

Lemma left_padded_review (x : list Z) :
  left_padded 200 (1%Z :: word_ids x) = row_of_review x.
Proof.
  unfold row_of_review. destruct (Nat.ltb_spec (length x) 200) as [Hs|Hl].
  - rewrite left_padded_short by (cbn [length]; rewrite word_ids_length; lia).
    cbn [length]. rewrite word_ids_length.
    replace (200 - S (length x)) with (199 - length x) by lia. reflexivity.
  - rewrite left_padded_long by (cbn [length]; rewrite word_ids_length; lia).
    cbn [length]. rewrite word_ids_length.
    replace (S (length x) - 200) with (S (length x - 200)) by lia.
    cbn [skipn]. apply word_ids_skipn.
Qed.

Lemma combine_map_fst {A B C : Type} (f : A -> C) (l : list A) (l' : list B) :
  combine (map f l) l' = map (fun ab => (f (fst ab), snd ab)) (combine l l').
Proof.
  revert l'. induction l as [|a l IH]; intros [|b l']; simpl; try reflexivity.
  rewrite IH. reflexivity.
Qed.

Lemma prepared_rows (l : list (list Z)) :
  map (left_padded maxlen) (map (fun x => clip 0 vocab_size 2 (encode 1 3 x)) l)
  = map row_of_review l.
Proof.
  rewrite map_map. apply map_ext. intros x.
  rewrite loaded_review. apply left_padded_review.
Qed.

(** X1. Up to the order of the samples, the prepared data are the raw
    samples with every review replaced by its row and its label kept: a
    review of fewer than 200 words becomes zeros, the start marker 1 and
    its word ids; a review of 200 words or more becomes the ids of its last
    200 words, without the start marker. *)
Theorem prepared_samples_are_rows_of_raw_samples (a : Archive) :
  exists p, prepare a = Some p /\
    Permutation (combine (x_train p) (y_train p))
                (map row_and_label (combine (raw_x_train a) (raw_labels_train a))) /\
    Permutation (combine (x_val p) (y_val p))
                (map row_and_label (combine (raw_x_test a) (raw_labels_test a))) /\
    forall x : list Z,
      (length x < 200 ->
         row_of_review x = repeat 0%Z (199 - length x) ++ 1%Z :: word_ids x) /\
      (200 <= length x ->
         row_of_review x = word_ids (skipn (length x - 200) x) /\
         length (row_of_review x) = 200).
Proof.
  eexists. split; [apply prepare_eq|].
  unfold loaded, load_data. cbn [x_train x_val y_train y_val fst snd].
  rewrite !prepared_rows, !combine_map_fst.
  split; [apply Permutation_refl|]. split; [apply Permutation_refl|].
  intros x. unfold row_of_review. split; intros H.
  - destruct (Nat.ltb_spec (length x) 200); [reflexivity|lia].
  - destruct (Nat.ltb_spec (length x) 200); [lia|].
    split; [reflexivity|]. rewrite word_ids_length, length_skipn. lia.
Qed.

Lemma word_ids_at_least_2 (x : list Z) :
  Forall (fun w => (1 <= w)%Z) x ->
  Forall (fun id => (2 <= id < 20000)%Z) (word_ids x).
Proof.
  intros H. unfold word_ids, clip. rewrite map_map.
  apply Forall_forall. intros id Hid. apply in_map_iff in Hid.
  destruct Hid as [w [<- Hw]]. rewrite Forall_forall in H. specialize (H w Hw).
  unfold vocab_size.
  destruct (Z.leb_spec 0 (w + 3)); destruct (Z.ltb_spec (w + 3) 20000);
    cbn [andb]; lia.
Qed.

(** X2. The ids 0 and 1 are reserved.  When the word ranks of the archive
    start at 1, every prepared row is a run of zeros followed by ids of at
    least 1, and among these only the first can be the start marker 1: a 0
    is always padding and every later id is a word id of at least 2. *)
Theorem prepared_rows_reserve_0_and_1 (a : Archive) (p : Prepared) (r : list Z) :
  Forall (Forall (fun w => (1 <= w)%Z)) (raw_x_train a ++ raw_x_test a) ->
  prepare a = Some p ->
  In r (x_train p) \/ In r (x_val p) ->
  exists (k : nat) (body : list Z),
    r = repeat 0%Z k ++ body /\
    Forall (fun id => (1 <= id < 20000)%Z) body /\
    Forall (fun id => (2 <= id)%Z) (tl body).
Proof.
  intros Hraw Hp Hr.
  rewrite prepare_eq in Hp. injection Hp as <-.
  unfold loaded, load_data in Hr. cbn [x_train x_val fst snd] in Hr.
  change maxlen with 200 in Hr. rewrite !map_map in Hr.
  assert (Hx : exists x, Forall (fun w => (1 <= w)%Z) x /\ r = row_of_review x).
  { rewrite Forall_app in Hraw. destruct Hraw as [Ht Hv].
    rewrite Forall_forall in Ht, Hv.
    destruct Hr as [Hr|Hr]; apply in_map_iff in Hr; destruct Hr as [x [<- Hin]];
      exists x; (split; [auto|]); exact (left_padded_review x). }
  destruct Hx as [x [Hx ->]]. unfold row_of_review.
  destruct (Nat.ltb_spec (length x) 200) as [Hs|Hl].
  - exists (199 - length x), (1%Z :: word_ids x). split; [reflexivity|].
    pose proof (word_ids_at_least_2 Hx) as Hw. split.
    + constructor; [lia|]. eapply Forall_impl; [|exact Hw]. cbn. intros; lia.
    + cbn [tl]. eapply Forall_impl; [|exact Hw]. cbn. intros; lia.
  - exists 0, (word_ids (skipn (length x - 200) x)). split; [reflexivity|].
    assert (Hw : Forall (fun id => (2 <= id < 20000)%Z)
                   (word_ids (skipn (length x - 200) x)))
      by (apply word_ids_at_least_2, Forall_skipn'; assumption).
    split.
    + eapply Forall_impl; [|exact Hw]. cbn. intros; lia.
    + destruct (word_ids (skipn (length x - 200) x)) as [|w l]; [constructor|].
      cbn [tl]. inversion Hw; subst.
      eapply Forall_impl; [|eassumption]. cbn. intros; lia.
Qed.

Lemma left_padded_fixed (n : nat) (r : list Z) :
  length r = n -> left_padded n r = r.
Proof.
  intros H. unfold left_padded. rewrite H, Nat.sub_diag. reflexivity.
Qed.

(** X3. Padding is idempotent: padding the result of [pad_sequences]
    again, to the same length, changes nothing. *)
Theorem pad_sequences_idempotent (n : nat) (xs ys : list (list Z)) :
  0 < n ->
  pad_sequences xs n pre pre 0 = Some ys ->
  pad_sequences ys n pre pre 0 = Some ys.
Proof.
  intros Hn Hxs. unfold pad_sequences in *.
  rewrite (mapM_total _ (left_padded n)) in Hxs
    by (intros; apply pad_row_pre; assumption).
  injection Hxs as <-.
  rewrite (mapM_total _ (fun r => r)).
  - rewrite map_id. reflexivity.
  - intros r Hr. apply in_map_iff in Hr. destruct Hr as [s [<- _]].
    rewrite pad_row_pre by assumption.
    rewrite left_padded_fixed by apply left_padded_length. reflexivity.
Qed.

(** ** The embedding layer, position by position *)

Section EmbeddingMore.

Variable F : Type.
Variable fadd : F -> F -> F.

Lemma call_rows (maxlen vocab_size embed_dim : nat)
  (w_tok w_pos : nat -> nat -> F) (x : list Z) (out : list (list F)) :
  TokenAndPositionEmbedding_call fadd
    (TokenAndPositionEmbedding_init maxlen vocab_size embed_dim w_tok w_pos) x = Some out ->
  forall i v, nth_error out i = Some v ->
    exists id, nth_error x i = Some id /\
      (0 <= id < Z.of_nat vocab_size)%Z /\ i < maxlen /\
      v = tabulate embed_dim (fun k => fadd (w_tok (Z.to_nat id) k) (w_pos i k)).
Proof.
  intros Hout i v Hv.
  destruct (@call_characterised F fadd _ _ _ _ _ _ _ Hout) as [Hlen Hrows].
  assert (Hi : i < length x) by (rewrite <- Hlen; apply nth_error_Some; congruence).
  destruct (nth_error x i) as [id|] eqn:Hid;
    [|apply nth_error_None in Hid; lia].
  destruct (Hrows i id Hid) as (Hr & Hm & _ & _ & Ho).
  exists id. split; [reflexivity|]. split; [assumption|]. split; [assumption|].
  rewrite Ho in Hv. injection Hv as <-. apply vadd_rows.
Qed.

(** X4. Whenever the call returns, its output has one vector per input
    id and every vector has exactly [embed_dim] components: the shape
    (sequence length, embed_dim). *)
Theorem call_output_has_shape_length_by_embed_dim
  (maxlen vocab_size embed_dim : nat) (w_tok w_pos : nat -> nat -> F)
  (x : list Z) (out : list (list F)) :
  TokenAndPositionEmbedding_call fadd
    (TokenAndPositionEmbedding_init maxlen vocab_size embed_dim w_tok w_pos) x = Some out ->
  length out = length x /\ Forall (fun v => length v = embed_dim) out.
Proof.
  intros Hout. split; [apply (@call_characterised F fadd _ _ _ _ _ _ _ Hout)|].
  apply Forall_forall. intros v Hv. apply In_nth_error in Hv.
  destruct Hv as [i Hi].
  destruct (@call_rows _ _ _ _ _ _ _ Hout _ _ Hi) as (id & _ & _ & _ & ->).
  apply tabulate_length.
Qed.

(** X5. The embedding is position-wise: the vector at position [i]
    depends only on the id at position [i] and on [i].  Two inputs with the
    same id at position [i] get the same vector there, whatever their
    other ids and their lengths. *)
Theorem call_is_position_wise
  (maxlen vocab_size embed_dim : nat) (w_tok w_pos : nat -> nat -> F)
  (x x' : list Z) (out out' : list (list F)) (i : nat) (id : Z) :
  let self := TokenAndPositionEmbedding_init maxlen vocab_size embed_dim w_tok w_pos in
  TokenAndPositionEmbedding_call fadd self x = Some out ->
  TokenAndPositionEmbedding_call fadd self x' = Some out' ->
  nth_error x i = Some id ->
  nth_error x' i = Some id ->
  nth_error out i = nth_error out' i /\
  nth_error out i =
    Some (tabulate embed_dim (fun k => fadd (w_tok (Z.to_nat id) k) (w_pos i k))).
Proof.
  intros self Hout Hout' Hx Hx'.
  destruct (@call_characterised F fadd _ _ _ _ _ _ _ Hout) as [_ Hrows].
  destruct (@call_characterised F fadd _ _ _ _ _ _ _ Hout') as [_ Hrows'].
  destruct (Hrows i id Hx) as (_ & _ & _ & _ & Ho).
  destruct (Hrows' i id Hx') as (_ & _ & _ & _ & Ho').
  rewrite Ho, Ho'. split; [reflexivity|]. f_equal. apply vadd_rows.
Qed.

Lemma tabulate_ext {A : Type} (n : nat) (f g : nat -> A) :
  (forall k, k < n -> f k = g k) -> tabulate n f = tabulate n g.
Proof.
  intros H. unfold tabulate. apply map_ext_in. intros k Hk.
  apply in_seq in Hk. apply H. lia.
Qed.

(** X6. On an input the layer accepts (ids in the vocabulary, length at
    most [maxlen]) the call reads only the table rows it needs: the token
    rows of the ids that occur in the input and the position rows below
    the input length.  Changing any other entry of either table (rows of
    other tokens, positions at or beyond the length) does not change the
    result. *)
Theorem call_reads_only_the_rows_it_uses
  (maxlen vocab_size embed_dim : nat) (w_tok w_pos w_tok' w_pos' : nat -> nat -> F)
  (x : list Z) :
  Forall (fun id => (0 <= id < Z.of_nat vocab_size)%Z) x ->
  length x <= maxlen ->
  (forall id k, In id x -> k < embed_dim ->
     w_tok (Z.to_nat id) k = w_tok' (Z.to_nat id) k) ->
  (forall i k, i < length x -> k < embed_dim -> w_pos i k = w_pos' i k) ->
  exists out,
    TokenAndPositionEmbedding_call fadd
      (TokenAndPositionEmbedding_init maxlen vocab_size embed_dim w_tok w_pos) x
    = Some out /\
    TokenAndPositionEmbedding_call fadd
      (TokenAndPositionEmbedding_init maxlen vocab_size embed_dim w_tok' w_pos') x
    = Some out.
Proof.
  intros Hv Hle Htok Hpos.
  eexists. split; [apply call_succeeds; assumption|].
  rewrite call_succeeds by assumption. f_equal. unfold add2.
  assert (E : map (fun id => row embed_dim w_tok (Z.to_nat id)) x
            = map (fun id => row embed_dim w_tok' (Z.to_nat id)) x).
  { apply map_ext_in. intros id Hid. unfold row. apply tabulate_ext.
    intros k Hk. apply Htok; assumption. }
  rewrite E.
  replace (map (row embed_dim w_pos') (seq 0 (length x)))
    with (map (row embed_dim w_pos) (seq 0 (length x))); [reflexivity|].
  apply map_ext_in. intros i Hi. apply in_seq in Hi. unfold row.
  apply tabulate_ext. intros k Hk. apply Hpos; [lia|assumption].
Qed.

End EmbeddingMore.

(** ** Padding meets the position embedding *)

Lemma row_of_review_in_vocab (x : list Z) :
  Forall (fun id => (0 <= id < Z.of_nat (Z.to_nat vocab_size))%Z) (row_of_review x).
Proof.
  rewrite Z2Nat.id by (unfold vocab_size; lia).
  rewrite <- left_padded_review.
  apply (@left_padded_in_vocab 200 (1%Z :: word_ids x)).
  exact (clip_in_vocab (encode 1 3 x)).
Qed.

Lemma row_of_review_length (x : list Z) : length (row_of_review x) = 200.
Proof. rewrite <- left_padded_review. apply left_padded_length. Qed.

(** X7. Position embeddings are aligned to the end of a review.  In the
    row of a review of [n < 200] words the embedding layer of the model
    gives positions [0 .. 198-n] the token row of the padding id 0 (the
    padding is embedded, not masked), position [199-n] the start marker,
    and word [j] the position row [200-n+j]. *)
Theorem short_review_is_embedded_right_aligned
  (w_tok w_pos : nat -> nat -> R) (x : list Z) :
  length x < 200 ->
  let n := length x in
  let vec id i := tabulate embed_dim (fun k => (w_tok id k + w_pos i k)%R) in
  exists out,
    TokenAndPositionEmbedding_call Rplus (embedding_layer w_tok w_pos) (row_of_review x)
    = Some out /\
    length out = 200 /\
    (forall i, i < 199 - n -> nth_error out i = Some (vec 0 i)) /\
    nth_error out (199 - n) = Some (vec 1 (199 - n)) /\
    (forall j id, nth_error (word_ids x) j = Some id ->
       nth_error out (200 - n + j) = Some (vec (Z.to_nat id) (200 - n + j))).
Proof.
  intros Hn n vec.
  pose proof (@call_succeeds R Rplus maxlen (Z.to_nat vocab_size) embed_dim w_tok w_pos
                (row_of_review x) (row_of_review_in_vocab x)) as Hcall.
  rewrite row_of_review_length in Hcall. specialize (Hcall (Nat.le_refl 200)).
  unfold embedding_layer. eexists. split; [exact Hcall|].
  destruct (@call_characterised R Rplus _ _ _ _ _ _ _ Hcall) as [Hlen Hrows].
  rewrite row_of_review_length in Hlen.
  assert (Hat : forall i id, nth_error (row_of_review x) i = Some id ->
            nth_error
              (add2 Rplus
                 (map (fun id => row embed_dim w_tok (Z.to_nat id)) (row_of_review x))
                 (map (row embed_dim w_pos) (seq 0 200))) i
            = Some (vec (Z.to_nat id) i)).
  { intros i id Hi. destruct (Hrows i id Hi) as (_ & _ & _ & _ & Ho).
    rewrite Ho. unfold vec, row. rewrite vadd_rows. reflexivity. }
  split; [exact Hlen|].
  assert (Erow : row_of_review x = repeat 0%Z (199 - n) ++ 1%Z :: word_ids x).
  { unfold row_of_review. destruct (Nat.ltb_spec (length x) 200); [reflexivity|lia]. }
  split; [|split].
  - intros i Hi. apply (Hat i 0%Z). rewrite Erow.
    rewrite nth_error_app1 by (rewrite repeat_length; exact Hi).
    apply nth_error_repeat. exact Hi.
  - apply (Hat (199 - n) 1%Z). rewrite Erow.
    rewrite nth_error_app2 by (rewrite repeat_length; lia).
    rewrite repeat_length, Nat.sub_diag. reflexivity.
  - intros j id Hj. apply (Hat (200 - n + j) id). rewrite Erow.
    rewrite nth_error_app2 by (rewrite repeat_length; lia).
    rewrite repeat_length.
    replace (200 - n + j - (199 - n)) with (S j) by (unfold n; lia).
    exact Hj.
Qed.

(** ** The transformer block and the head, further *)

Lemma broadcast_shapes_last (p : list nat) (d e : nat) :
  broadcast_shapes (p ++ [d]) (p ++ [e])
  = option_map (fun w => p ++ [w]) (broadcast_dim d e).
Proof.
  unfold broadcast_shapes. rewrite !rev_app_distr. cbn [rev app broadcast_rev].
  destruct (broadcast_dim d e) as [w|]; cbn [bind option_map]; [|reflexivity].
  rewrite broadcast_rev_same. cbn [bind rev]. rewrite rev_involutive. reflexivity.
Qed.

Lemma activate_ext (a : Activation) (n : nat) (z z' : nat -> R) (j : nat) :
  (forall k, z k = z' k) -> activate a n z j = activate a n z' j.
Proof.
  intros H. destruct a; cbn [activate].
  - apply H.
  - rewrite H. reflexivity.
  - rewrite H. f_equal. apply sum_upto_ext. intros k _. rewrite H. reflexivity.
Qed.

Lemma Rsum_snoc (l : list R) (r : R) : Rsum (l ++ [r]) = (Rsum l + r)%R.
Proof.
  unfold Rsum. induction l as [|a l IH]; cbn [app fold_right]; [lra|].
  rewrite IH. lra.
Qed.

Lemma Rsum_permutation (l l' : list R) : Permutation l l' -> Rsum l = Rsum l'.
Proof.
  unfold Rsum. induction 1; cbn [fold_right]; try lra; congruence.
Qed.

Lemma sum_upto_Rsum (n : nat) (f : nat -> R) :
  sum_upto n f = Rsum (map f (seq 0 n)).
Proof.
  induction n as [|n IH]; [reflexivity|].
  rewrite seq_S, map_app. cbn [map]. rewrite Rsum_snoc, <- IH. reflexivity.
Qed.

Lemma sum_upto_permuted (n : nat) (f : nat -> R) (sigma : nat -> nat) :
  Permutation (map sigma (seq 0 n)) (seq 0 n) ->
  sum_upto n (fun p => f (sigma p)) = sum_upto n f.
Proof.
  intros H. rewrite !sum_upto_Rsum. rewrite <- (map_map sigma f).
  apply Rsum_permutation. apply Permutation_map. exact H.
Qed.

Section NumericMore.

Variable kernel : string -> nat -> nat -> R.
Variable bias : string -> nat -> R.
Variable attention : string -> nat -> nat -> Tensor -> Tensor -> list nat -> R.
Variable normalize : string -> Decimal -> Tensor -> list nat -> R.
Variable training : bool.
Variable keep : string -> list nat -> bool.

Lemma agree_dense (P Q : list nat -> Prop) (l : string) (units : nat)
  (a : Activation) (x y : option Tensor) (s : list nat) :
  has_shape x s -> 2 <= length s -> agree P x y ->
  (forall idx i, Q idx -> P (removelast idx ++ [i])) ->
  agree Q (num_dense kernel bias l units a x) (num_dense kernel bias l units a y).
Proof.
  intros [t0 [E0 S0]] Hr [t [u [-> [-> [Hs Hd]]]]] Hcl.
  injection E0 as <-. unfold num_dense, rank. cbn [bind].
  rewrite <- Hs, S0. destruct (Nat.leb_spec 2 (length s)); [|lia].
  eexists. eexists. split; [reflexivity|]. split; [reflexivity|].
  split; [reflexivity|]. intros idx Hidx. cbn [data].
  apply activate_ext. intros k. f_equal.
  apply sum_upto_ext. intros i _. rewrite (Hd _ (Hcl idx i Hidx)). reflexivity.
Qed.

Lemma agree_dropout (P : list nat -> Prop) (l : string) (rate : Decimal)
  (x y : option Tensor) :
  agree P x y ->
  agree P (num_dropout training keep l rate x) (num_dropout training keep l rate y).
Proof.
  intros [t [u [-> [-> [Hs Hd]]]]]. unfold num_dropout. cbn [bind].
  eexists. eexists. split; [reflexivity|]. split; [reflexivity|].
  split; [exact Hs|]. intros idx Hidx. cbn [data].
  rewrite (Hd idx Hidx). reflexivity.
Qed.

Lemma agree_pool (Q : list nat -> Prop) (t u : Tensor) (b steps features : nat) :
  0 < steps ->
  shape t = [b; steps; features] -> shape u = [b; steps; features] ->
  (forall i k, Q [i; k] ->
     sum_upto steps (fun p => data t [i; p; k])
     = sum_upto steps (fun p => data u [i; p; k])) ->
  agree Q (num_pool (Some t)) (num_pool (Some u)).
Proof.
  intros Hpos Ht Hu Hd. unfold num_pool. cbn [bind]. rewrite Ht, Hu.
  destruct (Nat.eqb_spec steps 0); [lia|].
  eexists. eexists. split; [reflexivity|]. split; [reflexivity|].
  split; [reflexivity|]. intros idx Hidx. cbn [data].
  destruct idx as [|i [|k [|? ?]]]; try reflexivity.
  rewrite (Hd i k Hidx). reflexivity.
Qed.

Lemma in_sample_dense (i : nat) (idx : list nat) (a : nat) :
  in_sample i idx -> in_sample i (removelast idx ++ [a]).
Proof.
  intros [rest [Hne ->]]. exists (removelast rest ++ [a]). split.
  - destruct (removelast rest); discriminate.
  - destruct rest as [|r rest]; [contradiction|]. reflexivity.
Qed.

Lemma head_agree (Q : list nat -> Prop) (t u : Tensor) (b steps features : nat) :
  let K := Numeric kernel bias attention normalize training keep in
  0 < steps ->
  shape t = [b; steps; features] -> shape u = [b; steps; features] ->
  (forall idx i, Q idx -> Q (removelast idx ++ [i])) ->
  (forall i k, Q [i; k] ->
     sum_upto steps (fun p => data t [i; p; k])
     = sum_upto steps (fun p => data u [i; p; k])) ->
  agree Q (classifier_head (B := K) (Some t)) (classifier_head (B := K) (Some u)).
Proof.
  intros K Hpos Ht Hu Hcl Hd. unfold classifier_head, K.
  cbn [Dense Dropout GlobalAveragePooling1D Numeric].
  assert (Hp : has_shape (num_pool (Some t)) [b; features])
    by (apply has_shape_pool with (steps := steps); [exact Hpos|];
        exists t; split; [reflexivity|assumption]).
  pose proof (@agree_pool Q t u b steps features Hpos Ht Hu Hd) as A.
  apply (@agree_dropout Q "dropout" rate_default) in A.
  apply (has_shape_dropout training keep "dropout" rate_default) in Hp.
  pose proof (@agree_dense Q Q "dense" 20 relu _ _ _ Hp ltac:(simpl; lia) A Hcl) as A1.
  apply (has_shape_dense kernel bias "dense" 20 relu) in Hp; [|simpl; lia].
  apply (@agree_dropout Q "dropout_1" rate_default) in A1.
  apply (has_shape_dropout training keep "dropout_1" rate_default) in Hp.
  exact (@agree_dense Q Q "dense_1" 2 softmax _ _ _ Hp ltac:(simpl; lia) A1 Hcl).
Qed.

End NumericMore.

(** X8. The classifier head treats the samples of a batch independently:
    if two batches of the same shape (sequences of at least one position)
    hold the same sequence at sample [i], the head gives sample [i] the
    same two probabilities in both, whatever the other samples are (with
    the same weights, mode and dropout masks). *)
Theorem classifier_head_is_per_sample
  (kernel : string -> nat -> nat -> R) (bias : string -> nat -> R)
  (attention : string -> nat -> nat -> Tensor -> Tensor -> list nat -> R)
  (normalize : string -> Decimal -> Tensor -> list nat -> R)
  (training : bool) (keep : string -> list nat -> bool)
  (t u : Tensor) (b steps features i : nat) :
  0 < steps ->
  shape t = [b; steps; features] ->
  shape u = [b; steps; features] ->
  (forall p k, data t [i; p; k] = data u [i; p; k]) ->
  let K := Numeric kernel bias attention normalize training keep in
  exists o o',
    classifier_head (B := K) (Some t) = Some o /\
    classifier_head (B := K) (Some u) = Some o' /\
    forall j, data o [i; j] = data o' [i; j].
Proof.
  intros Hpos Ht Hu Hsame K.
  destruct (@head_agree kernel bias attention normalize training keep
              (in_sample i) t u b steps features Hpos Ht Hu)
    as [o [o' [Ho [Ho' [_ Hd]]]]].
  - intros idx a. apply in_sample_dense.
  - intros i' k [rest [_ E]]. injection E as -> _.
    apply sum_upto_ext. intros p _. apply Hsame.
  - exists o, o'. split; [exact Ho|]. split; [exact Ho'|].
    intros j. apply Hd. exists [j]. split; [discriminate|reflexivity].
Qed.

(** X9. The classifier head ignores the order of the sequence: since it
    starts by averaging over the positions, rearranging the vectors of
    every sequence (of at least one position) by a permutation of the
    positions leaves its output unchanged, in exact real arithmetic. *)
Theorem classifier_head_ignores_position_order
  (kernel : string -> nat -> nat -> R) (bias : string -> nat -> R)
  (attention : string -> nat -> nat -> Tensor -> Tensor -> list nat -> R)
  (normalize : string -> Decimal -> Tensor -> list nat -> R)
  (training : bool) (keep : string -> list nat -> bool)
  (t : Tensor) (sigma : nat -> nat) (b steps features : nat) :
  0 < steps ->
  shape t = [b; steps; features] ->
  Permutation (map sigma (seq 0 steps)) (seq 0 steps) ->
  let K := Numeric kernel bias attention normalize training keep in
  exists o o',
    classifier_head (B := K) (Some t) = Some o /\
    classifier_head (B := K) (Some (permute_steps sigma t)) = Some o' /\
    shape o = shape o' /\
    forall idx, data o idx = data o' idx.
Proof.
  intros Hpos Ht Hperm K.
  destruct (@head_agree kernel bias attention normalize training keep
              (fun _ => True) t (permute_steps sigma t) b steps features Hpos Ht Ht)
    as [o [o' [Ho [Ho' [Hs Hd]]]]].
  - intros; exact I.
  - intros i k _. cbn [permute_steps data]. symmetry.
    apply (@sum_upto_permuted steps (fun p => data t [i; p; k]) sigma Hperm).
  - exists o, o'. split; [exact Ho|]. split; [exact Ho'|].
    split; [exact Hs|]. intros idx. apply Hd. exact I.
Qed.

Lemma shape_of_add_then_norm
  (normalize : string -> Decimal -> Tensor -> list nat -> R)
  (l : string) (eps : Decimal) (x y : option Tensor) (s s' : list nat) :
  has_shape x s -> has_shape y s' ->
  option_map shape (num_layernorm normalize l eps (num_add x y))
  = broadcast_shapes s s'.
Proof.
  intros [t [-> Ht]] [u [-> Hu]]. unfold num_add. cbn [bind].
  rewrite Ht, Hu. destruct (broadcast_shapes s s'); reflexivity.
Qed.

(** X11. What the block does to the shape of any batched input.  For an
    input of shape [p ++ [d]] (at least two leading axes) the result is
    decided by broadcasting [d] against [embed_dim] in the second residual
    addition: shape [p ++ [d]] when [d = embed_dim] or [embed_dim = 1],
    shape [p ++ [embed_dim]] when [d = 1], and an error otherwise. *)
Theorem TransformerBlock_shape_by_broadcasting
  (kernel : string -> nat -> nat -> R) (bias : string -> nat -> R)
  (attention : string -> nat -> nat -> Tensor -> Tensor -> list nat -> R)
  (normalize : string -> Decimal -> Tensor -> list nat -> R)
  (training : bool) (keep : string -> list nat -> bool)
  (embed_dim num_heads ff_dim : nat) (rate : Decimal)
  (t : Tensor) (p : list nat) (d : nat) :
  shape t = p ++ [d] ->
  2 <= length p ->
  let K := Numeric kernel bias attention normalize training keep in
  option_map shape
    (TransformerBlock_call (B := K)
       (TransformerBlock_init (B := K) embed_dim num_heads ff_dim rate) (Some t))
  = (if d =? embed_dim then Some (p ++ [d])
     else if d =? 1 then Some (p ++ [embed_dim])
     else if embed_dim =? 1 then Some (p ++ [d])
     else None).
Proof.
  intros Ht Hp K.
  assert (Hx : has_shape (Some t) (p ++ [d])) by (exists t; split; [reflexivity|exact Ht]).
  assert (Hlen : 3 <= length (p ++ [d])) by (rewrite length_app; simpl; lia).
  unfold TransformerBlock_call, TransformerBlock_init.
  cbn [att ffn layernorm1 layernorm2 dropout1 dropout2].
  unfold Sequential. cbn [fold_left].
  unfold K. cbn [tensor_add MultiHeadAttention Dense LayerNormalization Dropout Numeric].
  assert (Hout1 : has_shape
            (num_layernorm normalize "layernorm1" epsilon_1e6
               (num_add (Some t)
                  (num_dropout training keep "dropout1" rate
                     (num_attention attention "att" num_heads embed_dim
                        (Some t) (Some t))))) (p ++ [d])).
  { apply has_shape_layernorm, has_shape_add; [assumption|].
    apply has_shape_dropout.
    apply has_shape_attention with (s' := p ++ [d]); assumption. }
  pose proof (has_shape_dense kernel bias "ffn.0" ff_dim relu Hout1 ltac:(lia)) as H0.
  rewrite removelast_snoc in H0.
  assert (Hl0 : 2 <= length (p ++ [ff_dim])) by (rewrite length_app; simpl; lia).
  pose proof (has_shape_dense kernel bias "ffn.1" embed_dim linear H0 Hl0) as H1.
  rewrite removelast_snoc in H1.
  apply (has_shape_dropout training keep "dropout2" rate) in H1.
  rewrite (shape_of_add_then_norm normalize "layernorm2" epsilon_1e6 Hout1 H1).
  rewrite broadcast_shapes_last. unfold broadcast_dim.
  destruct (d =? embed_dim); [reflexivity|].
  destruct (d =? 1); [reflexivity|].
  destruct (embed_dim =? 1); reflexivity.
Qed.

(** X12. For a batch of any size (also the empty one) of in-vocabulary
    rows of length 200 the model returns one row of two probabilities per
    sample, and the two probabilities of each sample sum to 1. *)
Theorem model_returns_one_distribution_per_sample
  (kernel : string -> nat -> nat -> R) (bias : string -> nat -> R)
  (attention : string -> nat -> nat -> Tensor -> Tensor -> list nat -> R)
  (normalize : string -> Decimal -> Tensor -> list nat -> R)
  (training : bool) (keep : string -> list nat -> bool)
  (w_tok w_pos : nat -> nat -> R) (inputs : list (list Z)) :
  Forall (fun row => length row = 200) inputs ->
  Forall (Forall (fun id => (0 <= id < 20000)%Z)) inputs ->
  exists out,
    model kernel bias attention normalize training keep w_tok w_pos inputs = Some out /\
    shape out = [length inputs; 2] /\
    forall i : nat,
      (0 <= data out [i; 0%nat] <= 1)%R /\
      (0 <= data out [i; 1%nat] <= 1)%R /\
      (data out [i; 0%nat] + data out [i; 1%nat] = 1)%R.
Proof.
  intros Hlen Hids.
  destruct (model_on_valid_batch kernel bias attention normalize training keep
              w_tok w_pos Hlen Hids) as [out [Hout [Hs Hd]]].
  exists out. split; [exact Hout|]. split; [exact Hs|].
  intros i. destruct (Hd [i]) as [Hrange Hsum]. simpl in Hrange, Hsum.
  split; [apply Hrange; lia|]. split; [apply Hrange; lia|]. lra.
Qed.

(** X13. Everything after the embedding layer accepts sequences of any
    positive length: on a tensor of shape (batch, L, 32), for every
    [L > 0], the block followed by the head returns a tensor of shape
    (batch, 2) whose rows are probability distributions.  The length 200
    is only fixed by the input layer and the position table. *)
Theorem model_body_accepts_any_sequence_length
  (kernel : string -> nat -> nat -> R) (bias : string -> nat -> R)
  (attention : string -> nat -> nat -> Tensor -> Tensor -> list nat -> R)
  (normalize : string -> Decimal -> Tensor -> list nat -> R)
  (training : bool) (keep : string -> list nat -> bool)
  (t : Tensor) (b L : nat) :
  0 < L ->
  shape t = [b; L; 32] ->
  let K := Numeric kernel bias attention normalize training keep in
  exists out,
    model_body (B := K) (Some t) = Some out /\
    shape out = [b; 2] /\
    rows_are_distributions out 2.
Proof.
  intros HL Ht K. unfold model_body.
  apply (head_distribution kernel bias attention normalize training keep)
    with (steps := L) (features := 32); [exact HL|].
  apply block_has_shape.
  - exists t. split; [reflexivity|exact Ht].
  - simpl. lia.
  - reflexivity.
Qed.

(** ** From the prepared data to the model *)

Lemma prepared_row_valid (a : Archive) (p : Prepared) (r : list Z) :
  prepare a = Some p ->
  In r (x_train p) \/ In r (x_val p) ->
  length r = maxlen /\ Forall in_vocab r.
Proof.
  intros Hp Hr. rewrite prepare_eq in Hp. injection Hp as <-.
  cbn [x_train x_val] in Hr.
  assert (H : exists s, r = left_padded maxlen s /\ Forall in_vocab s).
  { destruct Hr as [Hr|Hr]; apply in_map_iff in Hr; destruct Hr as [s [<- Hs]];
      exists s; (split; [reflexivity|]); apply (loaded_in_vocab a); auto. }
  destruct H as [s [-> Hs]]. split.
  - apply left_padded_length.
  - apply left_padded_in_vocab. exact Hs.
Qed.

(** X14. The prepared data always fits the model: for every archive, any
    batch made of prepared training or validation rows is accepted by the
    model, which returns one row of two probabilities per sample; neither
    the embedding lookups nor the shape checks can fail on it. *)
Theorem model_accepts_every_prepared_batch
  (kernel : string -> nat -> nat -> R) (bias : string -> nat -> R)
  (attention : string -> nat -> nat -> Tensor -> Tensor -> list nat -> R)
  (normalize : string -> Decimal -> Tensor -> list nat -> R)
  (training : bool) (keep : string -> list nat -> bool)
  (w_tok w_pos : nat -> nat -> R)
  (a : Archive) (p : Prepared) (batch : list (list Z)) :
  prepare a = Some p ->
  Forall (fun r => In r (x_train p) \/ In r (x_val p)) batch ->
  exists out,
    model kernel bias attention normalize training keep w_tok w_pos batch = Some out /\
    shape out = [length batch; 2] /\
    rows_are_distributions out 2.
Proof.
  intros Hp Hb.
  apply model_on_valid_batch.
  - eapply Forall_impl; [|exact Hb]. intros r Hr.
    apply (@prepared_row_valid a p r Hp Hr).
  - eapply Forall_impl; [|exact Hb]. intros r Hr.
    apply (@prepared_row_valid a p r Hp Hr).
Qed.

(** ** The further properties at concrete inputs *)

Example long_review_loses_start_marker :
  length (row_of_review long_review) = 200 /\
  hd 0%Z (row_of_review long_review) = 4%Z /\
  hd 0%Z (row_of_review [10; 25000; 4]%Z) = 0%Z /\
  nth 196 (row_of_review [10; 25000; 4]%Z) 0%Z = 1%Z.
Proof. repeat split; reflexivity. Qed.

Lemma prepared_samples_witness :
  row_of_review [10; 25000; 4]%Z = repeat 0%Z 196 ++ [1; 13; 2; 7]%Z /\
  row_of_review long_review = word_ids long_review.
Proof.
  destruct (prepared_samples_are_rows_of_raw_samples sample_archive)
    as (p & _ & _ & _ & H).
  split.
  - exact (proj1 (H [10; 25000; 4]%Z) ltac:(simpl; lia)).
  - exact (proj1 (proj2 (H long_review) ltac:(vm_compute; lia))).
Defined.

Lemma reserved_ids_witness :
  exists (k : nat) (body : list Z),
    repeat 0%Z 196 ++ [1; 13; 2; 7]%Z = repeat 0%Z k ++ body /\
    Forall (fun id => (1 <= id < 20000)%Z) body /\
    Forall (fun id => (2 <= id)%Z) (tl body).
Proof.
  refine (@prepared_rows_reserve_0_and_1 sample_archive
            {| x_train := map (left_padded maxlen) (fst (fst (loaded sample_archive)));
               y_train := snd (fst (loaded sample_archive));
               x_val := map (left_padded maxlen) (fst (snd (loaded sample_archive)));
               y_val := snd (snd (loaded sample_archive)) |}
            (repeat 0%Z 196 ++ [1; 13; 2; 7]%Z) _ _ _).
  - repeat constructor; lia.
  - apply prepare_eq.
  - left. left. reflexivity.
Defined.

Lemma pad_idempotent_witness :
  pad_sequences [[3; 4; 5]; [0; 0; 7]]%Z 3 pre pre 0 = Some [[3; 4; 5]; [0; 0; 7]]%Z.
Proof.
  refine (@pad_sequences_idempotent 3 [[1; 2; 3; 4; 5]; [7]]%Z
            [[3; 4; 5]; [0; 0; 7]]%Z _ _).
  - lia.
  - reflexivity.
Defined.

Lemma call_shape_witness :
  length [[140; 142]; [200; 202]]%Z = 2 /\
  Forall (fun v : list Z => length v = 2) [[140; 142]; [200; 202]]%Z.
Proof.
  refine (@call_output_has_shape_length_by_embed_dim Z Z.add 3 5 2 small_tok small_pos
            [4; 0]%Z [[140; 142]; [200; 202]]%Z _).
  reflexivity.
Defined.

Lemma call_position_wise_witness :
  nth_error [[140; 142]; [200; 202]]%Z 0
  = nth_error [[140; 142]; [210; 212]; [310; 312]]%Z 0.
Proof.
  refine (proj1 (@call_is_position_wise Z Z.add 3 5 2 small_tok small_pos
            [4; 0]%Z [4; 1; 1]%Z [[140; 142]; [200; 202]]%Z
            [[140; 142]; [210; 212]; [310; 312]]%Z 0 4%Z _ _ _ _));
    reflexivity.
Defined.

Lemma call_rows_used_witness :
  exists out,
    TokenAndPositionEmbedding_call Z.add
      (TokenAndPositionEmbedding_init 3 5 2 small_tok small_pos) [4; 0]%Z = Some out /\
    TokenAndPositionEmbedding_call Z.add
      (TokenAndPositionEmbedding_init 3 5 2 other_tok other_pos) [4; 0]%Z = Some out.
Proof.
  refine (@call_reads_only_the_rows_it_uses Z Z.add 3 5 2
            small_tok small_pos other_tok other_pos [4; 0]%Z _ _ _ _).
  - repeat constructor; simpl; lia.
  - simpl. lia.
  - intros id k [<-|[<-|[]]] _; reflexivity.
  - intros [|[|i]] k Hi _; [reflexivity|reflexivity|simpl in Hi; lia].
Defined.

Lemma right_aligned_witness :
  exists out,
    TokenAndPositionEmbedding_call Rplus
      (embedding_layer (fun _ _ => 0%R) (fun _ _ => 0%R))
      (row_of_review [10; 25000; 4]%Z) = Some out /\
    length out = 200.
Proof.
  destruct (@short_review_is_embedded_right_aligned (fun _ _ => 0%R) (fun _ _ => 0%R)
              [10; 25000; 4]%Z ltac:(simpl; lia)) as (out & Hout & Hlen & _).
  exists out. split; [exact Hout|exact Hlen].
Defined.

Lemma head_per_sample_witness :
  data batch_a [1; 0; 0] <> data batch_b [1; 0; 0] /\
  exists o o',
    classifier_head (B := unit_weights) (Some batch_a) = Some o /\
    classifier_head (B := unit_weights) (Some batch_b) = Some o' /\
    forall j, data o [0; j] = data o' [0; j].
Proof.
  split.
  - simpl. lra.
  - refine (@classifier_head_is_per_sample
              (fun _ _ _ => 1%R) (fun _ _ => 0%R) (fun _ _ _ _ _ _ => 0%R)
              (fun _ _ _ _ => 0%R) true (fun _ _ => true)
              batch_a batch_b 2 2 3 0 _ _ _ _).
    + lia.
    + reflexivity.
    + reflexivity.
    + intros p k. reflexivity.
Defined.

Lemma head_order_witness :
  data ramp_sequence [0; 0; 0]
    <> data (permute_steps (fun p => 1 - p) ramp_sequence) [0; 0; 0] /\
  exists o o',
    classifier_head (B := unit_weights) (Some ramp_sequence) = Some o /\
    classifier_head (B := unit_weights)
      (Some (permute_steps (fun p => 1 - p) ramp_sequence)) = Some o' /\
    shape o = shape o' /\
    forall idx, data o idx = data o' idx.
Proof.
  split.
  - simpl. lra.
  - refine (@classifier_head_ignores_position_order
              (fun _ _ _ => 1%R) (fun _ _ => 0%R) (fun _ _ _ _ _ _ => 0%R)
              (fun _ _ _ _ => 0%R) true (fun _ _ => true)
              ramp_sequence (fun p => 1 - p) 1 2 3 _ _ _).
    + lia.
    + reflexivity.
    + apply perm_swap.
Defined.

Lemma block_broadcast_witness :
  option_map shape
    (TransformerBlock_call (B := zero_weights)
       (TransformerBlock_init (B := zero_weights) 32 2 32 rate_default)
       (Some narrow_input))
  = Some [1; 2; 32].
Proof.
  refine (@TransformerBlock_shape_by_broadcasting
            (fun _ _ _ => 0%R) (fun _ _ => 0%R) (fun _ _ _ _ _ _ => 0%R)
            (fun _ _ _ _ => 0%R) false (fun _ _ => true) 32 2 32 rate_default
            narrow_input [1; 2] 1 _ _).
  - reflexivity.
  - simpl. lia.
Defined.

Lemma model_distribution_witness :
  exists out,
    model (fun _ _ _ => 0%R) (fun _ _ => 0%R) (fun _ _ _ _ _ _ => 0%R)
          (fun _ _ _ _ => 0%R) false (fun _ _ => true)
          (fun _ _ => 0%R) (fun _ _ => 0%R) zero_batch = Some out /\
    shape out = [32; 2] /\
    forall i : nat,
      (0 <= data out [i; 0%nat] <= 1)%R /\
      (0 <= data out [i; 1%nat] <= 1)%R /\
      (data out [i; 0%nat] + data out [i; 1%nat] = 1)%R.
Proof.
  apply (@model_returns_one_distribution_per_sample
           (fun _ _ _ => 0%R) (fun _ _ => 0%R) (fun _ _ _ _ _ _ => 0%R)
           (fun _ _ _ _ => 0%R) false (fun _ _ => true)
           (fun _ _ => 0%R) (fun _ _ => 0%R) zero_batch).
  - apply Forall_forall. intros row Hrow. apply repeat_spec in Hrow.
    subst row. reflexivity.
  - apply Forall_forall. intros row Hrow. apply repeat_spec in Hrow.
    subst row. apply Forall_forall. intros id Hid. apply repeat_spec in Hid.
    subst id. lia.
Defined.

Lemma model_body_length_witness :
  exists out,
    model_body (B := zero_weights) (Some (tensor_of_batch 1 5 32 [])) = Some out /\
    shape out = [1; 2] /\
    rows_are_distributions out 2.
Proof.
  refine (@model_body_accepts_any_sequence_length
            (fun _ _ _ => 0%R) (fun _ _ => 0%R) (fun _ _ _ _ _ _ => 0%R)
            (fun _ _ _ _ => 0%R) false (fun _ _ => true)
            (tensor_of_batch 1 5 32 []) 1 5 _ _).
  - lia.
  - reflexivity.
Defined.

Lemma prepared_batch_witness :
  exists out,
    model (fun _ _ _ => 0%R) (fun _ _ => 0%R) (fun _ _ _ _ _ _ => 0%R)
          (fun _ _ _ _ => 0%R) false (fun _ _ => true)
          (fun _ _ => 0%R) (fun _ _ => 0%R)
          [repeat 0%Z 196 ++ [1; 13; 2; 7]%Z] = Some out /\
    shape out = [1; 2] /\
    rows_are_distributions out 2.
Proof.
  refine (@model_accepts_every_prepared_batch
            (fun _ _ _ => 0%R) (fun _ _ => 0%R) (fun _ _ _ _ _ _ => 0%R)
            (fun _ _ _ _ => 0%R) false (fun _ _ => true)
            (fun _ _ => 0%R) (fun _ _ => 0%R) sample_archive
            {| x_train := map (left_padded maxlen) (fst (fst (loaded sample_archive)));
               y_train := snd (fst (loaded sample_archive));
               x_val := map (left_padded maxlen) (fst (snd (loaded sample_archive)));
               y_val := snd (snd (loaded sample_archive)) |}
            [repeat 0%Z 196 ++ [1; 13; 2; 7]%Z] _ _).
  - apply prepare_eq.
  - constructor; [|constructor]. left. left. reflexivity.
Defined.
